(** * babel-plugin-react-intl (the [T] / [t] fork): extraction of message
    descriptors, embedded from [src/index.js].

    The plugin is a Babel visitor.  Its helper functions either return a
    value or throw; the visitor callbacks additionally mutate the visited
    node (the extraction tag, the removal of the [description] attribute)
    and the per-file plugin state (the [messages] map, the log, the file
    metadata, the file system).  Helpers are embedded as functions into
    [Completion]; callbacks as functions returning the completion together
    with the node and the state as they are when the callback returns or
    throws.

    What Babel and Node provide ([path.evaluate], [path.referencesImport],
    the [path] module, [JSON.stringify], [process.cwd]) and the module
    [./print-icu-message], which is imported but is not part of the embedded
    source file, are parameters of the development. *)

From Stdlib Require Import String Ascii List ZArith Bool Lia DecimalString.
Import ListNotations.
Open Scope string_scope.

(** ** JavaScript strings

    Strings are sequences of code units; the development works with code
    units below 256, one [ascii] each. *)

Module JSString.

(** White space and line terminators removed by [String.prototype.trim],
    among the code units below 256: TAB, LF, VT, FF, CR, SP and NBSP. *)
Definition is_whitespace (c : ascii) : bool :=
  let n := nat_of_ascii c in
  (n =? 9)%nat || (n =? 10)%nat || (n =? 11)%nat || (n =? 12)%nat ||
  (n =? 13)%nat || (n =? 32)%nat || (n =? 160)%nat.

Fixpoint trimStart (s : string) : string :=
  match s with
  | EmptyString => EmptyString
  | String c r => if is_whitespace c then trimStart r else s
  end.

Definition is_empty (s : string) : bool :=
  match s with EmptyString => true | String _ _ => false end.

Fixpoint trimEnd (s : string) : string :=
  match s with
  | EmptyString => EmptyString
  | String c r =>
      let r' := trimEnd r in
      if is_whitespace c && is_empty r' then EmptyString else String c r'
  end.

(** [s.trim()] *)
Definition trim (s : string) : string := trimEnd (trimStart s).

(** [s.indexOf(pat)]: the first position at which [pat] occurs, or -1. *)
Fixpoint indexOf (pat s : string) : Z :=
  if prefix pat s then 0%Z
  else match s with
       | EmptyString => (-1)%Z
       | String _ r =>
           let i := indexOf pat r in
           if (i <? 0)%Z then (-1)%Z else (i + 1)%Z
       end.

(** JavaScript truthiness of a string: the empty string is falsy. *)
Definition truthy (s : string) : bool := negb (is_empty s).

(** The double quote and the line feed, for building messages. *)
Definition dquote : string := String (ascii_of_nat 34) EmptyString.
Definition newline : string := String (ascii_of_nat 10) EmptyString.

End JSString.

(** ** Insertion-ordered maps

    A JavaScript [Map], and the own string-keyed properties of an object
    literal, keep their keys in the order of first insertion; assigning to
    a key that is present replaces the value in place.  (None of the
    property names used by the plugin is an integer index, so objects do
    not reorder them.) *)

Module OMap.

Definition t (V : Type) : Type := list (string * V).

Definition empty {V} : t V := [].

Fixpoint get {V} (k : string) (m : t V) : option V :=
  match m with
  | [] => None
  | (k', v) :: r => if String.eqb k k' then Some v else get k r
  end.

Definition has {V} (k : string) (m : t V) : bool :=
  match get k m with Some _ => true | None => false end.

Fixpoint set {V} (k : string) (v : V) (m : t V) : t V :=
  match m with
  | [] => [(k, v)]
  | (k', v') :: r =>
      if String.eqb k k' then (k', v) :: r else (k', v') :: set k v r
  end.

Definition keys {V} (m : t V) : list string := map fst m.
Definition values {V} (m : t V) : list V := map snd m.

End OMap.

(** ** Values, nodes and errors *)

(** The values a static evaluation can produce. *)
Inductive Value : Type :=
| VString (s : string)
| VNumber (n : Z)
| VBoolean (b : bool)
| VNull
| VUndefined.

Record Position : Type := mkPosition { line : nat; column : nat }.

Record SourceLocation : Type :=
  mkSourceLocation { loc_start : Position; loc_end : Position }.

(** The nodes the plugin looks at, each with its [loc].  [OtherLiteral]
    stands for the literals that are not string literals; [OtherNode] for
    any other node, told apart by a tag. *)
Inductive Node : Type :=
| Identifier (loc : SourceLocation) (name : string)
| JSXIdentifier (loc : SourceLocation) (name : string)
| StringLiteral (loc : SourceLocation) (value : string)
| OtherLiteral (loc : SourceLocation) (value : Value)
| JSXExpressionContainer (loc : SourceLocation) (expression : Node)
| OtherNode (loc : SourceLocation) (tag : nat).

Definition node_loc (n : Node) : SourceLocation :=
  match n with
  | Identifier l _ | JSXIdentifier l _ | StringLiteral l _
  | OtherLiteral l _ | JSXExpressionContainer l _ | OtherNode l _ => l
  end.

Definition isIdentifier (n : Node) : bool :=
  match n with Identifier _ _ => true | _ => false end.

Definition isJSXIdentifier (n : Node) : bool :=
  match n with JSXIdentifier _ _ => true | _ => false end.

Definition isJSXExpressionContainer (n : Node) : bool :=
  match n with JSXExpressionContainer _ _ => true | _ => false end.

Definition isLiteral (n : Node) : bool :=
  match n with StringLiteral _ _ | OtherLiteral _ _ => true | _ => false end.

(** [node.name], which only identifiers have as a string. *)
Definition node_name (n : Node) : option string :=
  match n with
  | Identifier _ s | JSXIdentifier _ s => Some s
  | _ => None
  end.

(** [path.get('expression')] when the path is an expression container,
    the path itself otherwise. *)
Definition expression_of (path : Node) : Node :=
  match path with
  | JSXExpressionContainer _ expression => expression
  | _ => path
  end.

(** Errors: [path.buildCodeFrameError(msg)], located at the node of the
    path it is built on, and the [TypeError] of the language itself. *)
Inductive Error : Type :=
| CodeFrameError (at_ : SourceLocation) (message : string)
| TypeError (message : string).

Inductive Completion (A : Type) : Type :=
| Normal (a : A)
| Throw (e : Error).
Arguments Normal {A} a.
Arguments Throw {A} e.

Definition bind {A B} (c : Completion A) (k : A -> Completion B)
  : Completion B :=
  match c with
  | Normal a => k a
  | Throw e => Throw e
  end.

Notation "x <- c ;; k" := (bind c (fun x => k))
  (at level 61, c at next level, right associativity).

(** ** Descriptors, messages and the plugin state *)

(** A raw descriptor maps property names to value paths; an evaluated one
    maps them to strings.  [storeMessage] destructures the four properties
    it knows. *)
Record Descriptor : Type := mkDescriptor {
  d_id : option string;
  d_description : option string;
  d_defaultMessage : option string;
  d_c : option string
}.

Definition destructure (o : OMap.t string) : Descriptor :=
  {| d_id := OMap.get "id" o;
     d_description := OMap.get "description" o;
     d_defaultMessage := OMap.get "defaultMessage" o;
     d_c := OMap.get "c" o |}.

(** What [storeMessage] puts into the map:
    [{id, description, defaultMessage, ...loc}], where [loc], when source
    locations are extracted, is [{file, start, end}]. *)
Record Message : Type := mkMessage {
  m_id : string;
  m_description : option string;
  m_defaultMessage : string;
  m_loc : option (string * SourceLocation)
}.

Record Opts : Type := mkOpts {
  moduleSourceName : option string;
  enforceDescriptions : bool;
  extractSourceLocation : bool;
  messagesDir : option string
}.

Record FileOpts : Type := mkFileOpts { basename : string; filename : string }.

Inductive FsEvent : Type :=
| MkdirpSync (dir : string)
| WriteFileSync (file : string) (data : string).

(** [state]: [file.opts], [opts], [reactIntl.messages], and what the
    callbacks write to: [file.metadata['react-intl']], [file.log.warn] and
    the file system. *)
Record State : Type := mkState {
  file_opts : FileOpts;
  opts : Opts;
  reactIntl_messages : OMap.t Message;
  file_metadata : option (list Message);
  file_log : list string;
  fs : list FsEvent
}.

Definition set_messages (st : State) (m : OMap.t Message) : State :=
  mkState (file_opts st) (opts st) m (file_metadata st) (file_log st) (fs st).

Definition set_metadata (st : State) (d : list Message) : State :=
  mkState (file_opts st) (opts st) (reactIntl_messages st) (Some d)
          (file_log st) (fs st).

Definition log_warn (st : State) (w : string) : State :=
  mkState (file_opts st) (opts st) (reactIntl_messages st) (file_metadata st)
          (file_log st ++ [w]) (fs st).

Definition fs_do (st : State) (evs : list FsEvent) : State :=
  mkState (file_opts st) (opts st) (reactIntl_messages st) (file_metadata st)
          (file_log st) (fs st ++ evs).

Inductive JSXAttr : Type :=
| JSXAttribute (name value : Node)
| JSXSpreadAttribute (argument : Node).

Definition isJSXAttribute (a : JSXAttr) : bool :=
  match a with JSXAttribute _ _ => true | JSXSpreadAttribute _ => false end.

(** A [JSXOpeningElement] node; [el_extracted] is [node[EXTRACTED_TAG]]. *)
Record JSXOpeningElementNode : Type := mkElement {
  el_loc : SourceLocation;
  el_name : Node;
  el_attributes : list JSXAttr;
  el_extracted : bool
}.

(** A [CallExpression] node. *)
Record CallExpressionNode : Type := mkCall {
  call_loc : SourceLocation;
  call_callee : Node;
  call_arguments : list Node;
  call_extracted : bool
}.

Inductive PrintResult : Type :=
| Printed (message : string)
| ParseError (parseError : string).

(** ** Constants of the module *)

(** The react-intl components are disabled, to avoid a conflict with the
    T component: the list is empty. *)
Definition COMPONENT_NAMES : list string := [].

Definition FUNCTION_NAMES : list string := ["defineMessages"].

Definition DESCRIPTOR_PROPS : list string :=
  ["id"; "description"; "defaultMessage"].

Definition COMPONENT_NAME : string := "T".
Definition MESSAGE_PROPERTY : string := "s".
Definition COMMENT_PROPERTY : string := "c".

(** [v === s] for a string [s]. *)
Definition is_string (v : Value) (s : string) : bool :=
  match v with VString s' => String.eqb s' s | _ => false end.

Definition truthy_opt (o : option string) : bool :=
  match o with Some s => JSString.truthy s | None => false end.

(** [a !== b] on values that are a string or undefined. *)
Definition strict_neq (a b : option string) : bool :=
  match a, b with
  | Some x, Some y => negb (String.eqb x y)
  | None, None => false
  | _, _ => true
  end.

(** ** A host for the examples

    Instances of what Babel and Node provide, used where a statement is
    evaluated on a concrete file. *)

Module ExampleHost.

(** An evaluation that is confident on literals, and on nothing else. *)
Definition evaluate (n : Node) : option Value :=
  match n with
  | StringLiteral _ v => Some (VString v)
  | OtherLiteral _ v => Some v
  | _ => None
  end.

(** A file that imports from react-intl only, each name under itself. *)
Definition path_referencesImport (n : Node) (moduleSource importName : string)
  : bool :=
  match node_name n with
  | Some s => String.eqb s importName && String.eqb moduleSource "react-intl"
  | None => false
  end.

Fixpoint braces (depth : nat) (s : string) : bool :=
  match s with
  | EmptyString => (depth =? 0)%nat
  | String c r =>
      if Ascii.eqb c "{"%char then braces (S depth) r
      else if Ascii.eqb c "}"%char then
             match depth with
             | O => false
             | S d => braces d r
             end
      else braces depth r
  end.

(** Modelled from the spec: [./print-icu-message] is imported by
    [index.js] and is not part of the embedded source.  The spec has it
    parse the message and print it back in canonical form, failing with
    the parser's diagnostic, and gives unbalanced braces as a failure and
    [Hello, {name}!] as a message printed unchanged; this stand-in accepts
    a message when its braces balance and prints it as it is. *)
Definition printICUMessage (message : string) : PrintResult :=
  if braces 0 message then Printed message
  else ParseError "SyntaxError: unbalanced braces".

Definition p_sep : string := "/".

(** Consecutive separators collapse to one. *)
Fixpoint normalize (s : string) : string :=
  match s with
  | String a ((String b _) as r) =>
      if Ascii.eqb a "/"%char && Ascii.eqb b "/"%char then normalize r
      else String a (normalize r)
  | _ => s
  end.

Definition p_join (segments : list string) : string :=
  normalize (String.concat "/" segments).

Fixpoint drop (n : nat) (s : string) : string :=
  match n, s with
  | S n', String _ r => drop n' r
  | _, _ => s
  end.

Definition p_relative (from to : string) : string :=
  if prefix (from ++ "/") to then drop (S (String.length from)) to else to.

(** The part before the last separator. *)
Fixpoint dirname_aux (s : string) : option string :=
  match s with
  | EmptyString => None
  | String c r =>
      match dirname_aux r with
      | Some d => Some (String c d)
      | None => if Ascii.eqb c "/"%char then Some EmptyString else None
      end
  end.

Definition p_dirname (s : string) : string :=
  match dirname_aux s with
  | Some EmptyString => "/"
  | Some d => d
  | None => "."
  end.

Definition process_cwd : string := "/proj".

Fixpoint indent (n : nat) : string :=
  match n with O => EmptyString | S n' => " " ++ indent n' end.

Definition quote (s : string) : string :=
  JSString.dquote ++ s ++ JSString.dquote.

Definition stringify_message (n : nat) (m : Message) : string :=
  indent n ++ "{" ++ JSString.newline ++
  indent (2 * n) ++ quote "id" ++ ": " ++ quote (m_id m) ++ "," ++
  JSString.newline ++
  match m_description m with
  | Some d =>
      indent (2 * n) ++ quote "description" ++ ": " ++ quote d ++ "," ++
      JSString.newline
  | None => EmptyString
  end ++
  indent (2 * n) ++ quote "defaultMessage" ++ ": " ++
  quote (m_defaultMessage m) ++ JSString.newline ++
  indent n ++ "}".

(** [JSON.stringify(descriptors, null, n)] for messages without a source
    location whose strings need no escaping. *)
Definition JSON_stringify (ds : list Message) (n : nat) : string :=
  match ds with
  | [] => "[]"
  | _ => "[" ++ JSString.newline ++
         String.concat ("," ++ JSString.newline)
                       (map (stringify_message n) ds) ++
         JSString.newline ++ "]"
  end.

Definition origin : SourceLocation :=
  mkSourceLocation (mkPosition 1 0) (mkPosition 1 0).

Definition options : Opts := mkOpts None false false None.

(** The state at [Program.enter] of [/proj/src/app.js]. *)
Definition initial (o : Opts) : State :=
  mkState (mkFileOpts "app" "/proj/src/app.js") o OMap.empty None [] [].

(** [<T s="Hello" c="foo" />] *)
Definition hello_with_comment : JSXOpeningElementNode :=
  mkElement origin (JSXIdentifier origin "T")
    [JSXAttribute (JSXIdentifier origin "s") (StringLiteral origin "Hello");
     JSXAttribute (JSXIdentifier origin "c") (StringLiteral origin "foo")]
    false.

(** [<FormattedMessage id="greeting" defaultMessage="Hi" />], with
    [FormattedMessage] imported from react-intl. *)
Definition formatted_message : JSXOpeningElementNode :=
  mkElement origin (JSXIdentifier origin "FormattedMessage")
    [JSXAttribute (JSXIdentifier origin "id") (StringLiteral origin "greeting");
     JSXAttribute (JSXIdentifier origin "defaultMessage")
                  (StringLiteral origin "Hi")]
    false.

(** [t("Welcome", values, "foo")] *)
Definition welcome_call : CallExpressionNode :=
  mkCall origin (Identifier origin "t")
    [StringLiteral origin "Welcome"; OtherNode origin 0;
     StringLiteral origin "foo"]
    false.

(** [t("X##foo")] and [t("X", values, "foo")] *)
Definition mangled_text_call : CallExpressionNode :=
  mkCall origin (Identifier origin "t") [StringLiteral origin "X##foo"] false.

Definition commented_call : CallExpressionNode :=
  mkCall origin (Identifier origin "t")
    [StringLiteral origin "X"; OtherNode origin 0; StringLiteral origin "foo"]
    false.

(** The attribute value in [<T s="a \\{ b" />]: JSX does not process the
    backslashes, and the brace is left open. *)
Definition escaped_value : Node := StringLiteral origin "a \\{ b".

(** Two descriptors with the same id and the same comment, and default
    messages that differ. *)
Definition descriptor_A : Descriptor :=
  mkDescriptor (Some "X") None (Some "A") (Some "foo").

Definition descriptor_B : Descriptor :=
  mkDescriptor (Some "X") None (Some "B") (Some "foo").

(** A state in which descriptions are enforced and [X] is stored with a
    description, and a descriptor for [X] without one. *)
Definition enforcing : State :=
  mkState (mkFileOpts "app" "/proj/src/app.js")
          (mkOpts None true false None)
          [("X", mkMessage "X" (Some "a greeting") "A" None)]
          None [] [].

Definition undescribed : Descriptor :=
  mkDescriptor (Some "X") None (Some "A") None.

(** A state at the end of a file with one message, when [messagesDir] is
    [out]. *)
Definition finished : State :=
  mkState (mkFileOpts "app" "/proj/src/app.js")
          (mkOpts None false false (Some "out"))
          [("Welcome", mkMessage "Welcome" None "Welcome" None)]
          None [] [].

End ExampleHost.

(** ** Further examples *)

Module MoreExamples.

(** [<T s="Hi" s="Hello" c="foo" title="x" />] *)
Definition repeated_props : list (Node * Node) :=
  [(JSXIdentifier ExampleHost.origin "s", StringLiteral ExampleHost.origin "Hi");
   (JSXIdentifier ExampleHost.origin "s",
    StringLiteral ExampleHost.origin "Hello");
   (JSXIdentifier ExampleHost.origin "c",
    StringLiteral ExampleHost.origin "foo");
   (JSXIdentifier ExampleHost.origin "title",
    StringLiteral ExampleHost.origin "x")].

(** The properties [id: "greeting", defaultMessage: "Hi", values: v]. *)
Definition standard_props : list (Node * Node) :=
  [(Identifier ExampleHost.origin "id",
    StringLiteral ExampleHost.origin "greeting");
   (Identifier ExampleHost.origin "defaultMessage",
    StringLiteral ExampleHost.origin "Hi");
   (Identifier ExampleHost.origin "values", OtherNode ExampleHost.origin 1)].

(** The raw descriptor of [<T s="Hello" c="foo" />]. *)
Definition raw_hello : OMap.t Node :=
  [("id", StringLiteral ExampleHost.origin "Hello");
   ("defaultMessage", StringLiteral ExampleHost.origin "Hello");
   ("c", StringLiteral ExampleHost.origin "foo")].

(** [<T s="Hello" description="a greeting" {...rest} />] *)
Definition described : JSXOpeningElementNode :=
  mkElement ExampleHost.origin (JSXIdentifier ExampleHost.origin "T")
    [JSXAttribute (JSXIdentifier ExampleHost.origin "s")
                  (StringLiteral ExampleHost.origin "Hello");
     JSXAttribute (JSXIdentifier ExampleHost.origin "description")
                  (StringLiteral ExampleHost.origin "a greeting");
     JSXSpreadAttribute (OtherNode ExampleHost.origin 2)]
    false.

(** [<T {...message} className="x" />] *)
Definition spread_only : JSXOpeningElementNode :=
  mkElement ExampleHost.origin (JSXIdentifier ExampleHost.origin "T")
    [JSXSpreadAttribute (OtherNode ExampleHost.origin 3);
     JSXAttribute (JSXIdentifier ExampleHost.origin "className")
                  (StringLiteral ExampleHost.origin "x")]
    false.

(** The descriptor of [X] without a comment, with another default message,
    and with another comment. *)
Definition plain_A : Descriptor :=
  mkDescriptor (Some "X") None (Some "A") None.

Definition plain_B : Descriptor :=
  mkDescriptor (Some "X") None (Some "B") None.

Definition descriptor_A_bar : Descriptor :=
  mkDescriptor (Some "X") None (Some "A") (Some "bar").

(** A second place in the file. *)
Definition elsewhere : SourceLocation :=
  mkSourceLocation (mkPosition 7 2) (mkPosition 7 30).

(** The same call as [ExampleHost.welcome_call], at the second place. *)
Definition welcome_again : CallExpressionNode :=
  mkCall elsewhere (Identifier elsewhere "t")
    [StringLiteral ExampleHost.origin "Welcome"; OtherNode ExampleHost.origin 0;
     StringLiteral ExampleHost.origin "foo"]
    false.

(** The state in which [t("Welcome", values, "foo")] has been extracted. *)
Definition welcomed : State :=
  set_messages (ExampleHost.initial ExampleHost.options)
    [("Welcome##foo", mkMessage "Welcome##foo" None "Welcome" None)].

(** [t("Hello, {name")], with a brace left open. *)
Definition unbalanced_call : CallExpressionNode :=
  mkCall elsewhere (Identifier elsewhere "t")
    [StringLiteral ExampleHost.origin "Hello, {name"] false.

End MoreExamples.

(** ** The plugin *)

Section Plugin.

(** [path.evaluate()]: [Some v] when the evaluation is confident. *)
Variable evaluate : Node -> option Value.

(** [path.referencesImport(moduleSource, importName)] *)
Variable path_referencesImport : Node -> string -> string -> bool.

(** The default export of [./print-icu-message]: it parses the message
    and prints it back, or throws the parser's error. *)
Variable printICUMessage : string -> PrintResult.

(** Node's [path] module, [process.cwd()] and [JSON.stringify(v, null, n)]. *)
Variable p_sep : string.
Variable p_relative : string -> string -> string.
Variable p_join : list string -> string.
Variable p_dirname : string -> string.
Variable process_cwd : string.
Variable JSON_stringify : list Message -> nat -> string.

Definition getModuleSourceName (o : Opts) : string :=
  match moduleSourceName o with
  | Some s => if JSString.truthy s then s else "react-intl"
  | None => "react-intl"
  end.

Definition evaluatePath (path : Node) : Completion Value :=
  match evaluate path with
  | Some value => Normal value
  | None =>
      Throw (CodeFrameError (node_loc path)
        "[React Intl] Messages must be statically evaluate-able for extraction.")
  end.

Definition getMessageDescriptorKey (path : Node) : Completion Value :=
  match path with
  | Identifier _ name | JSXIdentifier _ name => Normal (VString name)
  | _ => evaluatePath path
  end.

(** [evaluatePath(path).trim()]: a value that is not a string has no
    [trim] method. *)
Definition getMessageDescriptorValue (path : Node) : Completion string :=
  let path := expression_of path in
  v <- evaluatePath path ;;
  match v with
  | VString s => Normal (JSString.trim s)
  | _ => Throw (TypeError "evaluatePath(...).trim is not a function")
  end.

Definition escaping_message : string :=
  "[React Intl] Message failed to parse. " ++
  "It looks like `\`s were used for escaping, " ++
  "this won't work with JSX string literals. " ++
  "Wrap with `{}`. " ++
  "See: http://facebook.github.io/react/docs/jsx-gotchas.html".

Definition parse_message (parseError : string) : string :=
  "[React Intl] Message failed to parse. " ++
  "See: http://formatjs.io/guides/message-syntax/" ++
  JSString.newline ++ parseError.

Definition getICUMessageValue (messagePath : Node) (isJSXSource : bool)
  : Completion string :=
  message <- getMessageDescriptorValue messagePath ;;
  match printICUMessage message with
  | Printed m => Normal m
  | ParseError parseError =>
      if isJSXSource && isLiteral messagePath &&
         (0 <=? JSString.indexOf "\\" message)%Z
      then Throw (CodeFrameError (node_loc messagePath) escaping_message)
      else Throw (CodeFrameError (node_loc messagePath)
                    (parse_message parseError))
  end.

(** The body of the reducer of [createMessageDescriptor]. *)
Definition addProp (isTComp : bool) (hash : OMap.t Node)
           (prop : Node * Node) : Completion (OMap.t Node) :=
  let '(keyPath, valuePath) := prop in
  key <- getMessageDescriptorKey keyPath ;;
  Normal
    (if isTComp then
       if is_string key MESSAGE_PROPERTY then
         OMap.set "defaultMessage" valuePath (OMap.set "id" valuePath hash)
       else if is_string key COMMENT_PROPERTY then
         OMap.set COMMENT_PROPERTY valuePath hash
       else hash
     else
       match key with
       | VString k =>
           if existsb (String.eqb k) DESCRIPTOR_PROPS
           then OMap.set k valuePath hash
           else hash
       | _ => hash
       end).

(** [array.reduce(f, init)] with a callback that can throw. *)
Fixpoint reduce {A B} (f : A -> B -> Completion A) (l : list B) (a : A)
  : Completion A :=
  match l with
  | [] => Normal a
  | b :: r => a' <- f a b ;; reduce f r a'
  end.

Definition createMessageDescriptor (propPaths : list (Node * Node))
           (isTComp : bool) : Completion (OMap.t Node) :=
  reduce (addProp isTComp) propPaths OMap.empty.

(** [Object.keys(descriptor).forEach(...)] on the copy of the descriptor:
    the properties are evaluated in their order, each value replaced in
    place. *)
Fixpoint evaluateMessageDescriptor (descriptor : OMap.t Node)
         (isJSXSource : bool) : Completion (OMap.t string) :=
  match descriptor with
  | [] => Normal []
  | (key, valuePath) :: rest =>
      v <- (if String.eqb key "defaultMessage"
            then getICUMessageValue valuePath isJSXSource
            else getMessageDescriptorValue valuePath) ;;
      rest' <- evaluateMessageDescriptor rest isJSXSource ;;
      Normal ((key, v) :: rest')
  end.

Definition required_message : string :=
  "[React Intl] Message Descriptors require an `id` and `defaultMessage`.".

Definition duplicate_message (id : string) : string :=
  "[React Intl] Duplicate message id: " ++ JSString.dquote ++ id ++
  JSString.dquote ++ ", " ++
  "but the `description` and/or `defaultMessage` are different.".

Definition description_message : string :=
  "[React Intl] Message must have a `description`.".

(** [storeMessage({id, description, defaultMessage, c}, path, state)];
    [at_] is [path.node.loc].  The state returned with a [Throw] is the
    state at the time of the throw. *)
Definition storeMessage (d : Descriptor) (at_ : SourceLocation)
           (state : State) : Completion unit * State :=
  match d_id d, d_defaultMessage d with
  | Some id, Some defaultMessage =>
      if negb (JSString.truthy id && JSString.truthy defaultMessage)
      then (Throw (CodeFrameError at_ required_message), state)
      else
        let description := d_description d in
        let conflict :=
          match OMap.get id (reactIntl_messages state) with
          | Some existing =>
              strict_neq description (m_description existing) ||
              negb (String.eqb defaultMessage (m_defaultMessage existing))
          | None => false
          end in
        if conflict
        then (Throw (CodeFrameError at_ (duplicate_message id)), state)
        else if enforceDescriptions (opts state) &&
                negb (truthy_opt description)
        then (Throw (CodeFrameError at_ description_message), state)
        else
          let loc :=
            if extractSourceLocation (opts state)
            then Some (p_relative process_cwd (filename (file_opts state)),
                       at_)
            else None in
          let id :=
            if truthy_opt (d_c d)
            then match d_c d with
                 | Some c => id ++ "##" ++ c
                 | None => id
                 end
            else id in
          (Normal tt,
           set_messages state
             (OMap.set id (mkMessage id description defaultMessage loc)
                       (reactIntl_messages state)))
  | _, _ => (Throw (CodeFrameError at_ required_message), state)
  end.

Definition referencesImport (path : Node) (mod_ : string)
           (importedNames : list string) : bool :=
  if negb (isIdentifier path || isJSXIdentifier path) then false
  else existsb (fun name => path_referencesImport path mod_ name)
               importedNames.

Definition wasExtracted_element (path : JSXOpeningElementNode) : bool :=
  el_extracted path.

Definition tagAsExtracted_element (path : JSXOpeningElementNode)
  : JSXOpeningElementNode :=
  mkElement (el_loc path) (el_name path) (el_attributes path) true.

Definition wasExtracted_call (path : CallExpressionNode) : bool :=
  call_extracted path.

Definition tagAsExtracted_call (path : CallExpressionNode)
  : CallExpressionNode :=
  mkCall (call_loc path) (call_callee path) (call_arguments path) true.

(** The attributes that are not spreads, as [name, value] pairs. *)
Fixpoint attribute_pairs (attrs : list JSXAttr) : list (Node * Node) :=
  match attrs with
  | [] => []
  | JSXAttribute name value :: r => (name, value) :: attribute_pairs r
  | JSXSpreadAttribute _ :: r => attribute_pairs r
  end.

(** [attributes.some(...)]: the first attribute whose key is
    [description] is removed from the element, and the loop stops. *)
Fixpoint removeDescription (attrs : list JSXAttr)
  : Completion (list JSXAttr) :=
  match attrs with
  | [] => Normal []
  | JSXSpreadAttribute a :: r =>
      r' <- removeDescription r ;; Normal (JSXSpreadAttribute a :: r')
  | JSXAttribute name value :: r =>
      key <- getMessageDescriptorKey name ;;
      if is_string key "description" then Normal r
      else r' <- removeDescription r ;; Normal (JSXAttribute name value :: r')
  end.

Definition plural_warning (l : nat) : string :=
  "[React Intl] Line " ++ NilEmpty.string_of_uint (Nat.to_uint l) ++ ": " ++
  "Default messages are not extracted from " ++
  "<FormattedPlural>, use <FormattedMessage> instead.".

Definition Outcome (N : Type) : Type := (Completion unit * N * State)%type.

Definition JSXOpeningElement (path : JSXOpeningElementNode) (state : State)
  : Outcome JSXOpeningElementNode :=
  let isTComp :=
    match node_name (el_name path) with
    | Some n => String.eqb n COMPONENT_NAME
    | None => false
    end in
  if wasExtracted_element path then (Normal tt, path, state)
  else
    let moduleSourceName := getModuleSourceName (opts state) in
    let name := el_name path in
    if path_referencesImport name moduleSourceName "FormattedPlural"
    then (Normal tt, path,
          log_warn state (plural_warning (line (loc_start (el_loc path)))))
    else if referencesImport name moduleSourceName COMPONENT_NAMES || isTComp
    then
      let attributes := attribute_pairs (el_attributes path) in
      match createMessageDescriptor attributes isTComp with
      | Throw e => (Throw e, path, state)
      | Normal descriptor =>
          match OMap.get "defaultMessage" descriptor with
          | None => (Normal tt, path, state)
          | Some _ =>
              match evaluateMessageDescriptor descriptor true with
              | Throw e => (Throw e, path, state)
              | Normal descriptor =>
                  match storeMessage (destructure descriptor)
                                     (el_loc path) state with
                  | (Throw e, state') => (Throw e, path, state')
                  | (Normal _, state') =>
                      match removeDescription (el_attributes path) with
                      | Throw e => (Throw e, path, state')
                      | Normal attrs =>
                          (Normal tt,
                           tagAsExtracted_element
                             (mkElement (el_loc path) (el_name path) attrs
                                        (el_extracted path)),
                           state')
                      end
                  end
              end
          end
      end
    else (Normal tt, path, state).

Definition CallExpression (path : CallExpressionNode) (state : State)
  : Outcome CallExpressionNode :=
  if wasExtracted_call path then (Normal tt, path, state)
  else
    let callee := call_callee path in
    if match node_name callee with
       | Some name => String.eqb name "t"
       | None => false
       end
    then
      let arguments := call_arguments path in
      match nth_error arguments 0 with
      | None =>
          (Throw (TypeError "Cannot read property of undefined"),
           path, state)
      | Some textPath =>
          match getICUMessageValue textPath false with
          | Throw e => (Throw e, path, state)
          | Normal text =>
              let c :=
                match nth_error arguments 2 with
                | Some cPath =>
                    c <- getMessageDescriptorValue cPath ;; Normal (Some c)
                | None => Normal None
                end in
              match c with
              | Throw e => (Throw e, path, state)
              | Normal c =>
                  match storeMessage
                          (mkDescriptor (Some text) None (Some text) c)
                          (call_loc path) state with
                  | (Throw e, state') => (Throw e, path, state')
                  | (Normal _, state') =>
                      (Normal tt, tagAsExtracted_call path, state')
                  end
              end
          end
      end
    else (Normal tt, path, state).

(** [Program.enter]: a fresh map for the file. *)
Definition Program_enter (state : State) : State :=
  set_messages state OMap.empty.

(** The path of the catalog of the file. *)
Definition messagesFilename (dir : string) (state : State) : string :=
  let relativePath :=
    p_join [p_sep; p_relative process_cwd (filename (file_opts state))] in
  p_join [dir; p_dirname relativePath;
          basename (file_opts state) ++ ".json"].

(** [Program.exit] *)
Definition Program_exit (state : State) : State :=
  let descriptors := OMap.values (reactIntl_messages state) in
  let state := set_metadata state descriptors in
  match messagesDir (opts state) with
  | Some dir =>
      if JSString.truthy dir && (0 <? length descriptors)%nat then
        let file := messagesFilename dir state in
        let messagesFile := JSON_stringify descriptors 2 in
        fs_do state [MkdirpSync (p_dirname file);
                     WriteFileSync file messagesFile]
      else state
  | None => state
  end.

(** ** The store *)

(** The required fields of a descriptor: an id and a default message,
    neither empty. *)
Definition has_required (d : Descriptor) : Prop :=
  exists id defaultMessage,
    d_id d = Some id /\ id <> "" /\
    d_defaultMessage d = Some defaultMessage /\ defaultMessage <> "".

(** A descriptor conflicts with the state when the map has an entry under
    the descriptor's own id whose description or default message is not
    the descriptor's. *)
Definition conflicting (d : Descriptor) (state : State) : Prop :=
  exists id existing,
    d_id d = Some id /\
    OMap.get id (reactIntl_messages state) = Some existing /\
    (d_description d <> m_description existing \/
     d_defaultMessage d <> Some (m_defaultMessage existing)).

(** The key [storeMessage] writes to. *)
Definition storage_key (id : string) (c : option string) : string :=
  match c with
  | Some c => if JSString.truthy c then id ++ "##" ++ c else id
  | None => id
  end.

(** [pat] occurs in [s]. *)
Definition occurs (pat s : string) : Prop :=
  exists a b, s = a ++ pat ++ b.

(** The call with other arguments. *)
Definition with_arguments (path : CallExpressionNode) (args : list Node)
  : CallExpressionNode :=
  mkCall (call_loc path) (call_callee path) args (call_extracted path).

(** What a raw descriptor built from a [T] element satisfies, [props]
    being the attribute pairs of the element: [id] and [defaultMessage]
    are the same value path, which is the value of an attribute named
    [s]; [c] is the value of an attribute named [c]; there is no
    [description]. *)
Definition T_descriptor (props : list (Node * Node)) (hash : OMap.t Node)
  : Prop :=
  OMap.get "id" hash = OMap.get "defaultMessage" hash /\
  OMap.get "description" hash = None /\
  (forall valuePath, OMap.get "defaultMessage" hash = Some valuePath ->
     exists keyPath, In (keyPath, valuePath) props /\
       getMessageDescriptorKey keyPath = Normal (VString MESSAGE_PROPERTY)) /\
  (forall valuePath, OMap.get "c" hash = Some valuePath ->
     exists keyPath, In (keyPath, valuePath) props /\
       getMessageDescriptorKey keyPath = Normal (VString COMMENT_PROPERTY)).

(** The messages map as the plugin keeps it: the keys differ from one
    another, each message is stored under its own id, and no stored id or
    default message is empty. *)
Definition well_formed (m : OMap.t Message) : Prop :=
  NoDup (OMap.keys m) /\
  Forall (fun kv => m_id (snd kv) = fst kv /\
                    fst kv <> "" /\
                    m_defaultMessage (snd kv) <> "") m.

(** The message [storeMessage] writes for a descriptor with the id [id] and
    the default message [dm]. *)
Definition stored_message (d : Descriptor) (at_ : SourceLocation)
           (state : State) (id dm : string) : Message :=
  mkMessage (storage_key id (d_c d)) (d_description d) dm
    (if extractSourceLocation (opts state)
     then Some (p_relative process_cwd (filename (file_opts state)), at_)
     else None).

(** The states of the plugin during the traversal of a file: the state
    after [Program.enter], and the state after either callback has run on
    a node, whether it returned or threw. *)
Inductive reachable (state0 : State) : State -> Prop :=
| reach_enter : reachable state0 (Program_enter state0)
| reach_element (state : State) (path path' : JSXOpeningElementNode)
                (r : Completion unit) (state' : State) :
    reachable state0 state ->
    JSXOpeningElement path state = (r, path', state') ->
    reachable state0 state'
| reach_call (state : State) (path path' : CallExpressionNode)
             (r : Completion unit) (state' : State) :
    reachable state0 state ->
    CallExpression path state = (r, path', state') ->
    reachable state0 state'.

(** The value of the last of the [key, value] pairs whose key is the
    string [k]. *)
Fixpoint last_keyed (k : string) (props : list (Node * Node)) : option Node :=
  match props with
  | [] => None
  | (keyPath, valuePath) :: rest =>
      match last_keyed k rest with
      | Some v => Some v
      | None =>
          match getMessageDescriptorKey keyPath with
          | Normal key => if is_string key k then Some valuePath else None
          | Throw _ => None
          end
      end
  end.

(** How [evaluateMessageDescriptor] resolves the value of the property
    [key]. *)
Definition resolve (isJSXSource : bool) (key : string) (valuePath : Node)
  : Completion string :=
  if String.eqb key "defaultMessage"
  then getICUMessageValue valuePath isJSXSource
  else getMessageDescriptorValue valuePath.

(** An attribute whose name is the key [description]. *)
Definition names_description (a : JSXAttr) : Prop :=
  match a with
  | JSXAttribute name _ =>
      getMessageDescriptorKey name = Normal (VString "description")
  | JSXSpreadAttribute _ => False
  end.

(** A string that begins, or ends, with white space. *)
Definition starts_with_whitespace (s : string) : bool :=
  match s with
  | EmptyString => false
  | String c _ => JSString.is_whitespace c
  end.

Fixpoint ends_with_whitespace (s : string) : bool :=
  match s with
  | EmptyString => false
  | String c r =>
      if JSString.is_empty r then JSString.is_whitespace c
      else ends_with_whitespace r
  end.

(** The message of the error of [evaluatePath]. *)
Definition evaluation_message : string :=
  "[React Intl] Messages must be statically evaluate-able for extraction.".

(** The message of an error. *)
Definition error_message (e : Error) : string :=
  match e with
  | CodeFrameError _ message => message
  | TypeError message => message
  end.


(** ** Facts about strings and insertion-ordered maps *)

Lemma length_append (a b : string) :
  String.length (a ++ b) = String.length a + String.length b.
Proof. induction a as [|x a IH]; simpl; [reflexivity | now rewrite IH]. Qed.

(** A mangled key is never the id it was built from. *)
Lemma mangled_neq (id c : string) : id ++ "##" ++ c <> id.
Proof.
  intro H. apply (f_equal String.length) in H.
  rewrite !length_append in H. simpl in H. lia.
Qed.

Lemma truthy_nonempty (s : string) : JSString.truthy s = true <-> s <> "".
Proof.
  destruct s; simpl; split; intro H;
    try discriminate; try reflexivity.
  now contradiction H.
Qed.

Lemma OMap_get_set_eq {V} (k : string) (v : V) (m : OMap.t V) :
  OMap.get k (OMap.set k v m) = Some v.
Proof.
  induction m as [|[k' v'] r IH]; simpl.
  - now rewrite String.eqb_refl.
  - destruct (String.eqb k k') eqn:E; simpl; rewrite E; auto.
Qed.

Lemma OMap_get_set_neq {V} (k k' : string) (v : V) (m : OMap.t V) :
  k <> k' -> OMap.get k' (OMap.set k v m) = OMap.get k' m.
Proof.
  intro Hne. induction m as [|[k0 v0] r IH]; simpl.
  - apply String.eqb_neq in Hne. rewrite String.eqb_sym in Hne.
    now rewrite Hne.
  - destruct (String.eqb k k0) eqn:E; simpl.
    + apply String.eqb_eq in E. subst k0.
      assert (String.eqb k' k = false) as ->; [|reflexivity].
      apply String.eqb_neq. congruence.
    + now rewrite IH.
Qed.

(** A key that is new goes to the end; the entries before it stay. *)
Lemma OMap_set_fresh {V} (k : string) (v : V) (m : OMap.t V) :
  OMap.get k m = None -> OMap.set k v m = (m ++ [(k, v)])%list.
Proof.
  induction m as [|[k' v'] r IH]; simpl; [reflexivity|].
  destruct (String.eqb k k'); [discriminate|].
  intro H. now rewrite IH.
Qed.

(** A key that is present keeps its place: the keys do not change. *)
Lemma OMap_set_keys_present {V} (k : string) (v : V) (m : OMap.t V) :
  OMap.get k m <> None -> OMap.keys (OMap.set k v m) = OMap.keys m.
Proof.
  unfold OMap.keys. induction m as [|[k' v'] r IH]; simpl; [congruence|].
  destruct (String.eqb k k') eqn:E; simpl; [reflexivity|].
  intro H. now rewrite IH.
Qed.

Lemma OMap_get_In {V} (k : string) (v : V) (m : OMap.t V) :
  OMap.get k m = Some v -> In v (OMap.values m).
Proof.
  unfold OMap.values. induction m as [|[k' v'] r IH]; simpl; [discriminate|].
  destruct (String.eqb k k'); intro H.
  - left. congruence.
  - right. auto.
Qed.

Lemma strict_neq_spec (a b : option string) :
  strict_neq a b = true <-> a <> b.
Proof.
  destruct a as [x|], b as [y|]; simpl; split; intro H;
    try congruence; try reflexivity.
  - apply negb_true_iff, String.eqb_neq in H. congruence.
  - apply negb_true_iff, String.eqb_neq. congruence.
Qed.

Lemma conflict_spec (d : Descriptor) (state : State) (id dm : string) :
  d_id d = Some id -> d_defaultMessage d = Some dm ->
  match OMap.get id (reactIntl_messages state) with
  | Some existing =>
      strict_neq (d_description d) (m_description existing) ||
      negb (String.eqb dm (m_defaultMessage existing))
  | None => false
  end = true <-> conflicting d state.
Proof.
  intros Hid Hdm. unfold conflicting. split.
  - destruct (OMap.get id (reactIntl_messages state)) as [e|] eqn:G;
      [|discriminate].
    intro H. exists id, e. repeat split; auto.
    apply orb_true_iff in H. destruct H as [H|H].
    + left. now apply strict_neq_spec.
    + right. apply negb_true_iff, String.eqb_neq in H. congruence.
  - intros (id' & e & Hid' & G & H).
    rewrite Hid in Hid'. injection Hid' as <-. rewrite G.
    apply orb_true_iff. destruct H as [H|H].
    + left. now apply strict_neq_spec.
    + right. apply negb_true_iff, String.eqb_neq. congruence.
Qed.

(** What [storeMessage] does once the three checks are passed. *)
Lemma storeMessage_Normal (d : Descriptor) (at_ : SourceLocation)
      (state state' : State) (u : unit) :
  storeMessage d at_ state = (Normal u, state') ->
  exists id dm,
    d_id d = Some id /\ d_defaultMessage d = Some dm /\
    id <> "" /\ dm <> "" /\
    state' =
      set_messages state
        (OMap.set (storage_key id (d_c d))
           (mkMessage (storage_key id (d_c d)) (d_description d) dm
              (if extractSourceLocation (opts state)
               then Some (p_relative process_cwd
                            (filename (file_opts state)), at_)
               else None))
           (reactIntl_messages state)).
Proof.
  unfold storeMessage.
  destruct (d_id d) as [id|]; [|discriminate].
  destruct (d_defaultMessage d) as [dm|]; [|discriminate].
  destruct (JSString.truthy id) eqn:Ti; [|discriminate].
  destruct (JSString.truthy dm) eqn:Td; [|discriminate].
  simpl.
  destruct (match OMap.get id (reactIntl_messages state) with
            | Some _ => _ | None => _ end); [discriminate|].
  destruct (enforceDescriptions (opts state) &&
            negb (truthy_opt (d_description d))); [discriminate|].
  intro H. injection H as _ <-.
  exists id, dm. repeat split; try (now apply truthy_nonempty).
  unfold storage_key, truthy_opt. destruct (d_c d) as [c|]; [|reflexivity].
  destruct (JSString.truthy c); reflexivity.
Qed.

(** [storeMessage] writes to the state in its last statement only. *)
Lemma storeMessage_Throw (d : Descriptor) (at_ : SourceLocation)
      (state state' : State) (e : Error) :
  storeMessage d at_ state = (Throw e, state') ->
  state' = state /\
  (e = CodeFrameError at_ required_message \/
   (exists id, d_id d = Some id /\
               e = CodeFrameError at_ (duplicate_message id)) \/
   e = CodeFrameError at_ description_message).
Proof.
  unfold storeMessage.
  destruct (d_id d) as [id|];
    [|intro H; injection H as <- <-; auto].
  destruct (d_defaultMessage d) as [dm|];
    [|intro H; injection H as <- <-; auto].
  destruct (negb (JSString.truthy id && JSString.truthy dm));
    [intro H; injection H as <- <-; auto|].
  destruct (match OMap.get id (reactIntl_messages state) with
            | Some _ => _ | None => _ end);
    [intro H; injection H as <- <-; split; eauto|].
  destruct (enforceDescriptions (opts state) &&
            negb (truthy_opt (d_description d)));
    [intro H; injection H as <- <-; auto|].
  discriminate.
Qed.

(** C10.  Whenever [storeMessage] raises an error, the state it leaves
    behind is the state it was called with: the messages map, like
    everything else, is written only after the three checks have passed.
    The error raised is one of the three node-located errors. *)
Theorem storeMessage_failure_is_atomic
        (d : Descriptor) (at_ : SourceLocation) (state state' : State)
        (e : Error)
        (Hthrow : storeMessage d at_ state = (Throw e, state')) :
  reactIntl_messages state' = reactIntl_messages state /\
  state' = state /\
  exists message, e = CodeFrameError at_ message.
Proof.
  apply storeMessage_Throw in Hthrow. destruct Hthrow as [-> He].
  repeat split.
  destruct He as [->|[(id & _ & ->)| ->]]; eauto.
Qed.

Lemma JSXOpeningElement_extracted (path : JSXOpeningElementNode)
      (state : State) :
  el_extracted path = true ->
  JSXOpeningElement path state = (Normal tt, path, state).
Proof.
  intro H. unfold JSXOpeningElement, wasExtracted_element. now rewrite H.
Qed.

Lemma CallExpression_extracted (path : CallExpressionNode) (state : State) :
  call_extracted path = true ->
  CallExpression path state = (Normal tt, path, state).
Proof.
  intro H. unfold CallExpression, wasExtracted_call. now rewrite H.
Qed.

(** A callback that returns normally either leaves the node as it found
    it or leaves it tagged. *)
Lemma JSXOpeningElement_tags (path path' : JSXOpeningElementNode)
      (state state' : State) (r : Completion unit) :
  JSXOpeningElement path state = (r, path', state') ->
  path' = path \/ el_extracted path' = true.
Proof.
  unfold JSXOpeningElement.
  repeat match goal with
         | |- context [match ?x with _ => _ end] => destruct x
         | |- context [if ?x then _ else _] => destruct x
         end;
    intro H; injection H as _ <- _; auto.
Qed.

(** C8.  A node that carries the extraction tag is skipped by its
    callback: the element callback and the call callback return at once,
    with the node, the messages map and the rest of the state as they
    were. *)
Theorem processed_node_is_skipped
        (el : JSXOpeningElementNode) (call : CallExpressionNode)
        (state : State)
        (Hel : wasExtracted_element el = true)
        (Hcall : wasExtracted_call call = true) :
  JSXOpeningElement el state = (Normal tt, el, state) /\
  CallExpression call state = (Normal tt, call, state).
Proof.
  split.
  - now apply JSXOpeningElement_extracted.
  - now apply CallExpression_extracted.
Qed.

(** The checks as [storeMessage] is written, on any descriptor and any
    state: the required fields; then the conflict with the entry under the
    descriptor's id; then the description, when descriptions are
    enforced. *)
Lemma storeMessage_check_order
        (d : Descriptor) (at_ : SourceLocation) (state : State) :
  (~ has_required d ->
   storeMessage d at_ state =
     (Throw (CodeFrameError at_ required_message), state)) /\
  (has_required d -> conflicting d state ->
   exists id, d_id d = Some id /\
     storeMessage d at_ state =
       (Throw (CodeFrameError at_ (duplicate_message id)), state)) /\
  (has_required d -> ~ conflicting d state ->
   enforceDescriptions (opts state) = true ->
   truthy_opt (d_description d) = false ->
   storeMessage d at_ state =
     (Throw (CodeFrameError at_ description_message), state)).
Proof.
  unfold storeMessage. repeat split.
  - intro Hreq.
    destruct (d_id d) as [id|] eqn:Hid; [|reflexivity].
    destruct (d_defaultMessage d) as [dm|] eqn:Hdm; [|reflexivity].
    destruct (JSString.truthy id) eqn:Ti; [|reflexivity].
    destruct (JSString.truthy dm) eqn:Td; [|reflexivity].
    exfalso. apply Hreq. exists id, dm.
    repeat split; auto; now apply truthy_nonempty.
  - intros (id & dm & Hid & Ti & Hdm & Td) Hc.
    exists id. split; [assumption|].
    rewrite Hid, Hdm.
    apply truthy_nonempty in Ti, Td. rewrite Ti, Td. simpl.
    apply (conflict_spec d state id dm Hid Hdm) in Hc.
    cbv zeta. now rewrite Hc.
  - intros (id & dm & Hid & Ti & Hdm & Td) Hc Henf Hdesc.
    assert (Hc' := conflict_spec d state id dm Hid Hdm).
    rewrite Hid, Hdm.
    apply truthy_nonempty in Ti, Td. rewrite Ti, Td. simpl.
    destruct (match OMap.get id (reactIntl_messages state) with
              | Some _ => _ | None => _ end).
    + exfalso. apply Hc. now apply Hc'.
    + now rewrite Henf, Hdesc.
Qed.

(** ** Occurrences, [indexOf] and [trim] *)

Lemma prefix_append (pat b : string) : prefix pat (pat ++ b) = true.
Proof.
  induction pat as [|x pat IH]; simpl; [now destruct b|].
  destruct (ascii_dec x x); [assumption | congruence].
Qed.

Lemma indexOf_occurs (pat s : string) :
  occurs pat s -> (0 <=? JSString.indexOf pat s)%Z = true.
Proof.
  intros (a & b & ->). induction a as [|x a IH].
  - simpl append.
    assert (E : JSString.indexOf pat (pat ++ b) = 0%Z);
      [|now rewrite E].
    assert (P := prefix_append pat b).
    destruct (pat ++ b); cbn [JSString.indexOf]; now rewrite P.
  - change ((String x a) ++ pat ++ b) with (String x (a ++ pat ++ b)).
    cbn [JSString.indexOf]. cbv zeta.
    destruct (prefix pat (String x (a ++ pat ++ b)));
      [reflexivity|].
    apply Z.leb_le in IH.
    destruct (JSString.indexOf pat (a ++ pat ++ b) <? 0)%Z eqn:L.
    + apply Z.ltb_lt in L. lia.
    + apply Z.leb_le. lia.
Qed.

Lemma backslash_not_whitespace : JSString.is_whitespace "\"%char = false.
Proof. reflexivity. Qed.

Lemma occurs_trimStart (s : string) :
  occurs "\\" s -> occurs "\\" (JSString.trimStart s).
Proof.
  intros (a & b & ->). induction a as [|x a IH].
  - exists "", b. reflexivity.
  - change ((String x a) ++ "\\" ++ b) with (String x (a ++ "\\" ++ b)).
    simpl. destruct (JSString.is_whitespace x); [exact IH|].
    exists (String x a), b. reflexivity.
Qed.

Lemma occurs_trimEnd (s : string) :
  occurs "\\" s -> occurs "\\" (JSString.trimEnd s).
Proof.
  intros (a & b & ->). induction a as [|x a IH].
  - exists "", (JSString.trimEnd b). reflexivity.
  - change ((String x a) ++ "\\" ++ b) with (String x (a ++ "\\" ++ b)).
    destruct IH as (a' & b' & E).
    cbn [JSString.trimEnd]. cbv zeta. rewrite E.
    assert (JSString.is_empty (a' ++ "\\" ++ b') = false) as ->
        by now destruct a'.
    rewrite andb_false_r.
    exists (String x a'), b'. reflexivity.
Qed.

Lemma occurs_trim (s : string) :
  occurs "\\" s -> occurs "\\" (JSString.trim s).
Proof. intro H. now apply occurs_trimEnd, occurs_trimStart. Qed.

Lemma messages_differ (parseError : string) :
  escaping_message <> parse_message parseError.
Proof. unfold escaping_message, parse_message. simpl. discriminate. Qed.

(** C9.  A default message that is a literal attribute value (JSX
    source, not wrapped in an expression container), in which two
    backslashes occur in a row, and which the printer fails to parse, is
    rejected with the escaping diagnostic, located at the value; this is
    not the generic parse error with the parser's diagnostic. *)
Theorem escaped_literal_gets_escaping_diagnostic
        (messagePath : Node) (v parseError : string)
        (Hlit : isLiteral messagePath = true)
        (Hval : evaluate messagePath = Some (VString v))
        (Hbs : occurs "\\" v)
        (Hparse : printICUMessage (JSString.trim v) = ParseError parseError) :
  getICUMessageValue messagePath true =
    Throw (CodeFrameError (node_loc messagePath) escaping_message) /\
  escaping_message <> parse_message parseError.
Proof.
  split; [|apply messages_differ].
  unfold getICUMessageValue, getMessageDescriptorValue, evaluatePath.
  assert (Hpath : expression_of messagePath = messagePath)
    by (destruct messagePath; try reflexivity; discriminate).
  rewrite Hpath, Hval. simpl. rewrite Hparse, Hlit.
  now rewrite (indexOf_occurs _ _ (occurs_trim v Hbs)).
Qed.

(** ** The element callback on elements other than [T] *)

Lemma referencesImport_COMPONENT_NAMES (path : Node) (mod_ : string) :
  referencesImport path mod_ COMPONENT_NAMES = false.
Proof.
  unfold referencesImport, COMPONENT_NAMES.
  now destruct (negb (isIdentifier path || isJSXIdentifier path)).
Qed.

(** C2, as the code has it.  No component name is recognized, so an
    element whose tag is not named [T] is never extracted: the callback
    returns normally with the element and the messages map as they were,
    having at most logged the warning about FormattedPlural. *)
Theorem only_T_elements_are_extracted
        (path : JSXOpeningElementNode) (state : State)
        (HnotT : node_name (el_name path) <> Some COMPONENT_NAME) :
  exists state',
    JSXOpeningElement path state = (Normal tt, path, state') /\
    reactIntl_messages state' = reactIntl_messages state /\
    (state' = state \/
     state' = log_warn state
                (plural_warning (line (loc_start (el_loc path))))).
Proof.
  unfold JSXOpeningElement.
  destruct (wasExtracted_element path); [eauto|].
  destruct (path_referencesImport _ _ _); [eauto|].
  rewrite referencesImport_COMPONENT_NAMES. simpl.
  destruct (node_name (el_name path)) as [n|] eqn:En; [|eauto].
  destruct (String.eqb n COMPONENT_NAME) eqn:E; [|eauto].
  apply String.eqb_eq in E. congruence.
Qed.

(** ** The catalog *)

Lemma OMap_keys_set {V} (k : string) (v : V) (m : OMap.t V) :
  OMap.keys (OMap.set k v m) =
    if OMap.has k m then OMap.keys m else (OMap.keys m ++ [k])%list.
Proof.
  unfold OMap.has. destruct (OMap.get k m) eqn:G.
  - apply OMap_set_keys_present. congruence.
  - rewrite OMap_set_fresh by assumption.
    unfold OMap.keys. now rewrite map_app.
Qed.

Lemma Program_exit_metadata (state : State) :
  file_metadata (Program_exit state) =
    Some (OMap.values (reactIntl_messages state)).
Proof.
  unfold Program_exit. simpl.
  destruct (messagesDir (opts state)) as [dir|]; [|reflexivity].
  now destruct (JSString.truthy dir && _).
Qed.

Lemma Program_exit_fs (state : State) (dir : string) :
  messagesDir (opts state) = Some dir -> dir <> "" ->
  fs (Program_exit state) =
    match OMap.values (reactIntl_messages state) with
    | [] => fs state
    | descriptors =>
        (fs state ++
         [MkdirpSync (p_dirname (messagesFilename dir state));
          WriteFileSync (messagesFilename dir state)
                        (JSON_stringify descriptors 2)])%list
    end.
Proof.
  intros Hdir Hne. unfold Program_exit. simpl. rewrite Hdir.
  apply truthy_nonempty in Hne. rewrite Hne.
  now destruct (OMap.values (reactIntl_messages state)).
Qed.

(** C7.  At the end of a file for which [messagesDir] is configured:
    when the map has no message, nothing is written; when it has at least
    one, the directory of the catalog is created and one file is written,
    at [messagesDir], then the directory of the path of the file relative
    to the working directory, then the base name with [.json]; its
    content is the list of the messages, in the order of the map (the
    order of first insertion), printed by [JSON.stringify] with an
    indentation of 2. *)
Theorem catalog_is_written_when_nonempty
        (state : State) (dir : string)
        (Hdir : messagesDir (opts state) = Some dir)
        (Hconfigured : dir <> "") :
  let descriptors := OMap.values (reactIntl_messages state) in
  let file :=
    p_join [dir;
            p_dirname
              (p_join [p_sep;
                       p_relative process_cwd (filename (file_opts state))]);
            basename (file_opts state) ++ ".json"] in
  (descriptors = [] -> fs (Program_exit state) = fs state) /\
  (descriptors <> [] ->
   fs (Program_exit state) =
     (fs state ++
      [MkdirpSync (p_dirname file);
       WriteFileSync file (JSON_stringify descriptors 2)])%list) /\
  file_metadata (Program_exit state) = Some descriptors.
Proof.
  intros descriptors file.
  assert (H := Program_exit_fs state dir Hdir Hconfigured).
  fold descriptors in H. repeat split.
  - intro E. now rewrite E in H.
  - intro E. destruct descriptors; [congruence | exact H].
  - apply Program_exit_metadata.
Qed.

(** C6.  A descriptor with a (non-empty) comment [c] that is stored goes
    under the key [id ++ "##" ++ c]; that key is not [id], and the entry
    under [id] is as it was; the [id] of the stored message, which is
    what the catalog of the file lists, is the mangled key. *)
Theorem comment_key_is_stored_and_persisted
        (d : Descriptor) (at_ : SourceLocation) (state state' : State)
        (id c : string)
        (Hid : d_id d = Some id)
        (Hc : d_c d = Some c)
        (Hcomment : c <> "")
        (Hstored : storeMessage d at_ state = (Normal tt, state')) :
  let key := id ++ "##" ++ c in
  exists m,
    OMap.get key (reactIntl_messages state') = Some m /\
    m_id m = key /\
    m_description m = d_description d /\
    d_defaultMessage d = Some (m_defaultMessage m) /\
    key <> id /\
    OMap.get id (reactIntl_messages state') =
      OMap.get id (reactIntl_messages state) /\
    exists descriptors,
      file_metadata (Program_exit state') = Some descriptors /\
      In m descriptors /\
      forall dir, messagesDir (opts state') = Some dir -> dir <> "" ->
        In (WriteFileSync (messagesFilename dir state')
                          (JSON_stringify descriptors 2))
           (fs (Program_exit state')).
Proof.
  intro key.
  apply storeMessage_Normal in Hstored.
  destruct Hstored as (id' & dm & Hid' & Hdm & _ & _ & Hst).
  rewrite Hid in Hid'. injection Hid' as <-.
  assert (Hkey : storage_key id (d_c d) = key).
  { unfold storage_key. rewrite Hc.
    apply truthy_nonempty in Hcomment. now rewrite Hcomment. }
  rewrite Hkey in Hst.
  match type of Hst with
  | _ = set_messages _ (OMap.set _ ?m _) => set (msg := m) in *
  end.
  assert (Hmsgs : reactIntl_messages state' =
                  OMap.set key msg (reactIntl_messages state))
    by now rewrite Hst.
  assert (Hget : OMap.get key (reactIntl_messages state') = Some msg)
    by (rewrite Hmsgs; apply OMap_get_set_eq).
  clear Hst. exists msg. repeat split; auto.
  - apply mangled_neq.
  - rewrite Hmsgs. apply OMap_get_set_neq, mangled_neq.
  - exists (OMap.values (reactIntl_messages state')).
    assert (Hin := OMap_get_In _ _ _ Hget).
    split; [apply Program_exit_metadata|]. split; [exact Hin|].
    intros dir Hdir Hne. rewrite (Program_exit_fs _ dir Hdir Hne).
    destruct (OMap.values (reactIntl_messages state')); [destruct Hin|].
    apply in_or_app. right. right. left. reflexivity.
Qed.

(** ** Resolution of values *)

Lemma getMessageDescriptorValue_Normal (path : Node) (s : string) :
  getMessageDescriptorValue path = Normal s <->
  exists v, evaluate (expression_of path) = Some (VString v) /\
            s = JSString.trim v.
Proof.
  unfold getMessageDescriptorValue, evaluatePath.
  destruct (evaluate (expression_of path)) as [[v| | | |]|]; simpl;
    split; try discriminate;
    try (intros (v' & Hv & _); discriminate).
  - intro H. injection H as <-. eauto.
  - intros (v' & Hv & ->). injection Hv as <-. reflexivity.
Qed.

Lemma getICUMessageValue_Normal (path : Node) (isJSXSource : bool)
      (m : string) :
  getICUMessageValue path isJSXSource = Normal m <->
  exists v, evaluate (expression_of path) = Some (VString v) /\
            printICUMessage (JSString.trim v) = Printed m.
Proof.
  unfold getICUMessageValue. split.
  - destruct (getMessageDescriptorValue path) as [s|] eqn:E;
      [|discriminate].
    apply getMessageDescriptorValue_Normal in E.
    destruct E as (v & Hv & ->). simpl.
    destruct (printICUMessage (JSString.trim v)) eqn:P.
    + intro H. injection H as <-. eauto.
    + now destruct (_ && _).
  - intros (v & Hv & P).
    assert (E : getMessageDescriptorValue path = Normal (JSString.trim v))
      by (apply getMessageDescriptorValue_Normal; eauto).
    rewrite E. simpl. now rewrite P.
Qed.

(** ** The call callback *)

Lemma CallExpression_t (path : CallExpressionNode) (state : State)
      (l : SourceLocation) (textPath : Node) (others : list Node)
      (text : string) (c : option string) :
  wasExtracted_call path = false ->
  call_callee path = Identifier l "t" ->
  call_arguments path = textPath :: others ->
  getICUMessageValue textPath false = Normal text ->
  match nth_error others 1 with
  | Some cPath => exists w, getMessageDescriptorValue cPath = Normal w /\
                            c = Some w
  | None => c = None
  end ->
  CallExpression path state =
    match storeMessage (mkDescriptor (Some text) None (Some text) c)
                       (call_loc path) state with
    | (Throw e, state') => (Throw e, path, state')
    | (Normal _, state') => (Normal tt, tagAsExtracted_call path, state')
    end.
Proof.
  intros Hnew Hcallee Hargs Htext Hc.
  unfold CallExpression. rewrite Hnew, Hcallee, Hargs. simpl.
  rewrite Htext.
  destruct others as [|second [|cPath rest]]; simpl in *.
  - subst c. reflexivity.
  - subst c. reflexivity.
  - destruct Hc as (w & -> & ->). reflexivity.
Qed.

(** ** The element callback on [T] elements *)

Ltac omap :=
  repeat (rewrite OMap_get_set_eq ||
          rewrite OMap_get_set_neq by discriminate).

Lemma is_string_true (v : Value) (s : string) :
  is_string v s = true -> v = VString s.
Proof.
  destruct v; simpl; try discriminate.
  intro H. apply String.eqb_eq in H. now subst.
Qed.

Lemma addProp_T_descriptor (all : list (Node * Node)) (hash hash' : OMap.t Node)
      (prop : Node * Node) :
  In prop all -> T_descriptor all hash ->
  addProp true hash prop = Normal hash' -> T_descriptor all hash'.
Proof.
  intros Hin (Hsame & Hdesc & Hs & Hc). destruct prop as [keyPath valuePath].
  unfold addProp.
  destruct (getMessageDescriptorKey keyPath) as [key|] eqn:K;
    [|discriminate].
  simpl. intro H. injection H as <-.
  destruct (is_string key MESSAGE_PROPERTY) eqn:Es.
  - apply is_string_true in Es. subst key.
    unfold T_descriptor. omap. repeat split; auto.
    intros vp E. injection E as <-. eauto.
  - destruct (is_string key COMMENT_PROPERTY) eqn:Ec.
    + apply is_string_true in Ec. subst key.
      unfold T_descriptor, COMMENT_PROPERTY. omap. repeat split; auto.
      intros vp E. injection E as <-. eauto.
    + unfold T_descriptor. auto.
Qed.

Lemma reduce_T_descriptor (all props : list (Node * Node))
      (hash hash' : OMap.t Node) :
  incl props all -> T_descriptor all hash ->
  reduce (addProp true) props hash = Normal hash' -> T_descriptor all hash'.
Proof.
  revert hash. induction props as [|prop props IH]; simpl; intros hash Hi Hinv.
  - intro H. now injection H as <-.
  - destruct (addProp true hash prop) as [h1|] eqn:E; [|discriminate].
    simpl. apply IH.
    + intros x Hx. apply Hi. now right.
    + eapply addProp_T_descriptor; eauto. apply Hi. now left.
Qed.

Lemma createMessageDescriptor_T (props : list (Node * Node))
      (hash : OMap.t Node) :
  createMessageDescriptor props true = Normal hash ->
  T_descriptor props hash.
Proof.
  apply reduce_T_descriptor; [apply incl_refl|].
  unfold T_descriptor, OMap.empty. simpl.
  repeat split; auto; discriminate.
Qed.

(** Evaluation keeps the properties and their order, and resolves each
    value: the default message through the printer, the others by plain
    evaluation. *)
Lemma evaluateMessageDescriptor_get (descriptor : OMap.t Node)
      (isJSXSource : bool) (o : OMap.t string) (k : string) :
  evaluateMessageDescriptor descriptor isJSXSource = Normal o ->
  match OMap.get k descriptor with
  | Some valuePath =>
      exists s, OMap.get k o = Some s /\
        (if String.eqb k "defaultMessage"
         then getICUMessageValue valuePath isJSXSource
         else getMessageDescriptorValue valuePath) = Normal s
  | None => OMap.get k o = None
  end.
Proof.
  revert o. induction descriptor as [|[key vp] rest IH]; simpl; intro o.
  - intro H. now injection H as <-.
  - destruct (if String.eqb key "defaultMessage" then _ else _)
      as [s|] eqn:E; [|discriminate].
    simpl.
    destruct (evaluateMessageDescriptor rest isJSXSource) as [rest'|];
      [|discriminate].
    simpl. intro H. injection H as <-. simpl.
    destruct (String.eqb k key) eqn:Ek.
    + apply String.eqb_eq in Ek. subst key. eauto.
    + now apply IH.
Qed.

Lemma attribute_pairs_In (attrs : list JSXAttr) (name value : Node) :
  In (name, value) (attribute_pairs attrs) ->
  In (JSXAttribute name value) attrs.
Proof.
  induction attrs as [|[n v|a] r IH]; simpl; auto.
  intros [H|H]; [left; congruence | right; auto].
Qed.

(** ** Order of the catalog and failing callbacks *)

Lemma OMap_get_not_In {V} (k : string) (m : OMap.t V) :
  ~ In k (OMap.keys m) -> OMap.get k m = None.
Proof.
  unfold OMap.keys. induction m as [|[k' v'] r IH]; simpl; [reflexivity|].
  intro H. destruct (String.eqb k k') eqn:E.
  - apply String.eqb_eq in E. subst. exfalso. apply H. now left.
  - apply IH. intro I. apply H. now right.
Qed.

(** Messages stored under keys that differ from one another are listed in
    the order in which they were stored. *)
Lemma OMap_set_all_distinct {V} (kvs m : OMap.t V) :
  NoDup (OMap.keys (m ++ kvs)%list) ->
  fold_left (fun acc kv => OMap.set (fst kv) (snd kv) acc) kvs m =
    (m ++ kvs)%list.
Proof.
  revert m. induction kvs as [|[k v] r IH]; intros m Hnd; simpl.
  - now rewrite app_nil_r.
  - assert (Hfresh : OMap.get k m = None).
    { apply OMap_get_not_In. unfold OMap.keys in *.
      rewrite map_app in Hnd. simpl in Hnd.
      apply NoDup_remove_2 in Hnd. intro I. apply Hnd.
      apply in_or_app. now left. }
    rewrite (OMap_set_fresh k v m Hfresh).
    rewrite IH; rewrite <- app_assoc; [reflexivity | exact Hnd].
Qed.

Lemma reduce_addProp_keys (isTComp : bool) (props : list (Node * Node))
      (hash hash' : OMap.t Node) :
  reduce (addProp isTComp) props hash = Normal hash' ->
  Forall (fun prop => exists key,
            getMessageDescriptorKey (fst prop) = Normal key) props.
Proof.
  revert hash. induction props as [|[kp vp] r IH]; simpl; intro hash.
  - constructor.
  - unfold addProp at 1.
    destruct (getMessageDescriptorKey kp) as [key|] eqn:K; [|discriminate].
    simpl. intro H. constructor; [simpl; eauto | eapply IH; eauto].
Qed.

(** Once the descriptor has been built, every attribute name has a key, and
    the removal of the description cannot throw. *)
Lemma removeDescription_Normal (attrs : list JSXAttr) :
  Forall (fun prop => exists key,
            getMessageDescriptorKey (fst prop) = Normal key)
         (attribute_pairs attrs) ->
  exists attrs', removeDescription attrs = Normal attrs'.
Proof.
  induction attrs as [|[name value|a] r IH]; simpl; intro H.
  - eauto.
  - inversion H as [|x l (key & Hk) Hr]; subst. simpl in Hk. rewrite Hk.
    simpl. destruct (is_string key "description"); [eauto|].
    destruct (IH Hr) as (r' & ->). simpl. eauto.
  - destruct (IH H) as (r' & ->). simpl. eauto.
Qed.

(** A callback that throws leaves the node and the state as they were. *)
Lemma JSXOpeningElement_failure_is_atomic
      (path path' : JSXOpeningElementNode) (state state' : State) (e : Error) :
  JSXOpeningElement path state = (Throw e, path', state') ->
  path' = path /\ state' = state.
Proof.
  unfold JSXOpeningElement.
  destruct (wasExtracted_element path); [discriminate|].
  destruct (path_referencesImport _ _ _); [discriminate|].
  destruct (_ || _); [|discriminate].
  destruct (createMessageDescriptor _ _) as [hash|] eqn:Hc;
    [|intro H; injection H as _ <- <-; auto].
  destruct (OMap.get "defaultMessage" hash); [|discriminate].
  destruct (evaluateMessageDescriptor hash true) as [o|];
    [|intro H; injection H as _ <- <-; auto].
  destruct (storeMessage (destructure o) (el_loc path) state)
    as [[u|e'] st] eqn:Hs.
  - apply reduce_addProp_keys, removeDescription_Normal in Hc.
    destruct Hc as (attrs' & ->). discriminate.
  - apply storeMessage_Throw in Hs. destruct Hs as [-> _].
    intro H. injection H as _ <- <-. auto.
Qed.

Lemma CallExpression_failure_is_atomic
      (path path' : CallExpressionNode) (state state' : State) (e : Error) :
  CallExpression path state = (Throw e, path', state') ->
  path' = path /\ state' = state.
Proof.
  unfold CallExpression.
  destruct (wasExtracted_call path); [discriminate|].
  destruct (match node_name (call_callee path) with
            | Some _ => _ | None => _ end); [|discriminate].
  destruct (nth_error (call_arguments path) 0);
    [|intro H; injection H as _ <- <-; auto].
  destruct (getICUMessageValue _ false);
    [|intro H; injection H as _ <- <-; auto].
  cbv zeta.
  destruct (match nth_error (call_arguments path) 2 with
            | Some _ => _ | None => _ end);
    [|intro H; injection H as _ <- <-; auto].
  destruct (storeMessage _ _ _) as [[u|e'] st] eqn:Hs; [discriminate|].
  apply storeMessage_Throw in Hs. destruct Hs as [-> _].
  intro H. injection H as _ <- <-. auto.
Qed.

(** ** The store: acceptance, repetition, invariants *)

Lemma OMap_get_None_not_In {V} (k : string) (m : OMap.t V) :
  OMap.get k m = None -> ~ In k (OMap.keys m).
Proof.
  unfold OMap.keys. induction m as [|[k' v'] r IH]; simpl; [intros _ []|].
  destruct (String.eqb k k') eqn:E; [discriminate|].
  apply String.eqb_neq in E. intros G [H|H];
    [apply E; now symmetry | now apply IH].
Qed.

Lemma OMap_set_same {V} (k : string) (v : V) (m : OMap.t V) :
  OMap.get k m = Some v -> OMap.set k v m = m.
Proof.
  induction m as [|[k' v'] r IH]; simpl; [discriminate|].
  destruct (String.eqb k k'); intro H.
  - now injection H as ->.
  - now rewrite IH.
Qed.

Lemma OMap_set_NoDup {V} (k : string) (v : V) (m : OMap.t V) :
  NoDup (OMap.keys m) -> NoDup (OMap.keys (OMap.set k v m)).
Proof.
  intro H. rewrite OMap_keys_set. unfold OMap.has.
  destruct (OMap.get k m) eqn:G; [assumption|].
  apply OMap_get_None_not_In in G.
  apply NoDup_rev in H. rewrite <- (rev_involutive (_ ++ _)%list).
  apply NoDup_rev. rewrite rev_app_distr. simpl. constructor; [|assumption].
  intro I. apply G. now apply in_rev.
Qed.

Lemma OMap_set_Forall {V} (P : string * V -> Prop) (k : string) (v : V)
      (m : OMap.t V) :
  Forall P m -> P (k, v) -> Forall P (OMap.set k v m).
Proof.
  intros Hm Hk. induction m as [|[k' v'] r IH]; simpl.
  - now repeat constructor.
  - inversion Hm; subst. destruct (String.eqb k k') eqn:E.
    + apply String.eqb_eq in E. subst k'. now constructor.
    + constructor; auto.
Qed.

Lemma storage_key_nonempty (id : string) (c : option string) :
  id <> "" -> storage_key id c <> "".
Proof.
  intro H. unfold storage_key. destruct c as [c|]; [|assumption].
  destruct (JSString.truthy c); [|assumption].
  destruct id; [congruence | discriminate].
Qed.

(** What holds of a descriptor that [storeMessage] accepts. *)
Lemma storeMessage_Normal_conditions (d : Descriptor) (at_ : SourceLocation)
      (state state' : State) (u : unit) :
  storeMessage d at_ state = (Normal u, state') ->
  has_required d /\ ~ conflicting d state /\
  (enforceDescriptions (opts state) = false \/
   truthy_opt (d_description d) = true).
Proof.
  unfold storeMessage.
  destruct (d_id d) as [id|] eqn:Hid; [|discriminate].
  destruct (d_defaultMessage d) as [dm|] eqn:Hdm; [|discriminate].
  destruct (JSString.truthy id) eqn:Ti; [|discriminate].
  destruct (JSString.truthy dm) eqn:Td; [|discriminate].
  simpl. assert (Hc := conflict_spec d state id dm Hid Hdm).
  destruct (match OMap.get id (reactIntl_messages state) with
            | Some _ => _ | None => _ end); [discriminate|].
  destruct (enforceDescriptions (opts state)) eqn:En;
    destruct (truthy_opt (d_description d)) eqn:Td'; simpl;
    try discriminate; intros _;
    (split; [exists id, dm; repeat split; auto; now apply truthy_nonempty|]);
    (split; [intro C; apply Hc in C; discriminate | auto]).
Qed.

(** What [storeMessage] does with a descriptor that passes its checks. *)
Lemma storeMessage_passes (d : Descriptor) (at_ : SourceLocation)
      (state : State) (id dm : string) :
  d_id d = Some id -> d_defaultMessage d = Some dm ->
  id <> "" -> dm <> "" -> ~ conflicting d state ->
  (enforceDescriptions (opts state) = false \/
   truthy_opt (d_description d) = true) ->
  storeMessage d at_ state =
    (Normal tt,
     set_messages state
       (OMap.set (storage_key id (d_c d)) (stored_message d at_ state id dm)
                 (reactIntl_messages state))).
Proof.
  intros Hid Hdm Ti Td Hnc Hdesc. unfold storeMessage.
  rewrite Hid, Hdm. apply truthy_nonempty in Ti, Td. rewrite Ti, Td. simpl.
  assert (Hc := conflict_spec d state id dm Hid Hdm).
  destruct (match OMap.get id (reactIntl_messages state) with
            | Some _ => _ | None => _ end).
  { exfalso. apply Hnc. now apply Hc. }
  assert ((enforceDescriptions (opts state) &&
           negb (truthy_opt (d_description d))) = false) as ->.
  { destruct Hdesc as [-> | ->]; [reflexivity | apply andb_false_r]. }
  unfold stored_message, storage_key, truthy_opt.
  destruct (d_c d) as [c|]; [|reflexivity].
  destruct (JSString.truthy c); reflexivity.
Qed.

Lemma storeMessage_conflicts (d : Descriptor) (at_ : SourceLocation)
      (state : State) (id dm : string) :
  d_id d = Some id -> d_defaultMessage d = Some dm ->
  id <> "" -> dm <> "" -> conflicting d state ->
  storeMessage d at_ state =
    (Throw (CodeFrameError at_ (duplicate_message id)), state).
Proof.
  intros Hid Hdm Ti Td Hc. unfold storeMessage.
  rewrite Hid, Hdm. apply truthy_nonempty in Ti, Td. rewrite Ti, Td. simpl.
  apply (conflict_spec d state id dm Hid Hdm) in Hc. now rewrite Hc.
Qed.

(** X1.  A descriptor with a non-empty id and default message, that does
    not conflict with the entry under its id, and that has a description
    when descriptions are enforced, is accepted: [storeMessage] returns
    normally, the message can be read back under the storage key, every
    other key reads as before, and nothing but the map changes. *)
Theorem storeMessage_accepts_and_reads_back
        (d : Descriptor) (at_ : SourceLocation) (state : State)
        (id dm : string)
        (Hid : d_id d = Some id) (Hdm : d_defaultMessage d = Some dm)
        (Hid_ne : id <> "") (Hdm_ne : dm <> "")
        (Hno_conflict : ~ conflicting d state)
        (Hdesc : enforceDescriptions (opts state) = false \/
                 truthy_opt (d_description d) = true) :
  exists state',
    storeMessage d at_ state = (Normal tt, state') /\
    OMap.get (storage_key id (d_c d)) (reactIntl_messages state') =
      Some (stored_message d at_ state id dm) /\
    (forall k, k <> storage_key id (d_c d) ->
       OMap.get k (reactIntl_messages state') =
       OMap.get k (reactIntl_messages state)) /\
    state' = set_messages state (reactIntl_messages state').
Proof.
  eexists. split; [now apply (storeMessage_passes d at_ state id dm)|].
  simpl. repeat split.
  - apply OMap_get_set_eq.
  - intros k Hk. apply OMap_get_set_neq. congruence.
Qed.

(** Storing again what has just been stored. *)
Lemma storeMessage_again
      (d : Descriptor) (at_ at2 : SourceLocation) (state state1 : State)
      (u : unit)
      (Hstored : storeMessage d at_ state = (Normal u, state1)) :
  exists state2,
    storeMessage d at2 state1 = (Normal tt, state2) /\
    OMap.keys (reactIntl_messages state2) =
      OMap.keys (reactIntl_messages state1) /\
    (extractSourceLocation (opts state) = false -> state2 = state1).
Proof.
  destruct u.
  destruct (storeMessage_Normal_conditions _ _ _ _ _ Hstored)
    as ((id & dm & Hid & Ti & Hdm & Td) & Hnc & Hdesc).
  rewrite (storeMessage_passes d at_ state id dm Hid Hdm Ti Td Hnc Hdesc)
    in Hstored.
  injection Hstored as <-.
  set (key := storage_key id (d_c d)).
  set (state1 := set_messages state _).
  assert (Hget : OMap.get key (reactIntl_messages state1) =
                 Some (stored_message d at_ state id dm))
    by apply OMap_get_set_eq.
  assert (Hnc1 : ~ conflicting d state1).
  { intros (id' & e & Hid' & G & Hdiff).
    rewrite Hid in Hid'. injection Hid' as <-.
    destruct (String.eqb key id) eqn:E.
    - apply String.eqb_eq in E. rewrite E in Hget. rewrite Hget in G.
      injection G as <-. simpl in Hdiff. rewrite Hdm in Hdiff.
      destruct Hdiff; congruence.
    - apply String.eqb_neq in E. apply Hnc. exists id, e.
      repeat split; auto. rewrite <- G. symmetry.
      now apply OMap_get_set_neq. }
  eexists. split.
  - apply (storeMessage_passes d at2 state1 id dm Hid Hdm Ti Td Hnc1 Hdesc).
  - simpl. fold key. split.
    + apply OMap_set_keys_present. rewrite OMap_get_set_eq. discriminate.
    + intro Hloc. unfold state1, set_messages. simpl. f_equal.
      apply OMap_set_same. rewrite OMap_get_set_eq.
      unfold stored_message. simpl. now rewrite Hloc.
Qed.

(** X2.  Storing a descriptor that has just been stored, from any place,
    is accepted again and adds no row: the keys of the map are the same,
    and when source locations are not extracted the state is the same. *)
Theorem storeMessage_again_adds_no_row
        (d : Descriptor) (at_ at2 : SourceLocation) (state state1 : State)
        (Hstored : storeMessage d at_ state = (Normal tt, state1)) :
  exists state2,
    storeMessage d at2 state1 = (Normal tt, state2) /\
    OMap.keys (reactIntl_messages state2) =
      OMap.keys (reactIntl_messages state1) /\
    (extractSourceLocation (opts state) = false -> state2 = state1).
Proof. exact (storeMessage_again d at_ at2 state state1 tt Hstored). Qed.

(** X3.  After a descriptor without a comment has been stored, a
    descriptor with the same id whose description or default message is
    another one is rejected with the duplicate error, located at the
    second node, and the map keeps the first message. *)
Theorem storeMessage_rejects_other_message_for_stored_id
        (d1 d2 : Descriptor) (at1 at2 : SourceLocation)
        (state state1 : State) (id dm2 : string)
        (Hstored : storeMessage d1 at1 state = (Normal tt, state1))
        (Hno_comment : truthy_opt (d_c d1) = false)
        (Hid1 : d_id d1 = Some id) (Hid2 : d_id d2 = Some id)
        (Hdm2 : d_defaultMessage d2 = Some dm2) (Hdm2_ne : dm2 <> "")
        (Hother : d_description d2 <> d_description d1 \/
                  d_defaultMessage d2 <> d_defaultMessage d1) :
  storeMessage d2 at2 state1 =
    (Throw (CodeFrameError at2 (duplicate_message id)), state1).
Proof.
  destruct (storeMessage_Normal_conditions _ _ _ _ _ Hstored)
    as ((id' & dm & Hid & Ti & Hdm & Td) & Hnc & Hdesc).
  rewrite Hid1 in Hid. injection Hid as <-.
  rewrite (storeMessage_passes d1 at1 state id dm Hid1 Hdm Ti Td Hnc Hdesc)
    in Hstored.
  injection Hstored as <-.
  assert (Hkey : storage_key id (d_c d1) = id).
  { unfold storage_key. unfold truthy_opt in Hno_comment.
    destruct (d_c d1); [now rewrite Hno_comment | reflexivity]. }
  apply (storeMessage_conflicts d2 at2 _ id dm2 Hid2 Hdm2 Ti Hdm2_ne).
  exists id, (stored_message d1 at1 state id dm). split; [assumption|].
  split.
  - simpl. rewrite Hkey. apply OMap_get_set_eq.
  - simpl. rewrite Hdm in Hother. exact Hother.
Qed.

(** ** The callbacks and the map *)

(** Either callback leaves the map as it was, or leaves it as one call of
    [storeMessage] on the map it found does. *)
Lemma JSXOpeningElement_map (path path' : JSXOpeningElementNode)
      (state state' : State) (r : Completion unit) :
  JSXOpeningElement path state = (r, path', state') ->
  reactIntl_messages state' = reactIntl_messages state \/
  exists d r', storeMessage d (el_loc path) state = (r', state').
Proof.
  unfold JSXOpeningElement.
  destruct (wasExtracted_element path);
    [intro H; injection H as _ _ <-; auto|].
  destruct (path_referencesImport _ _ _);
    [intro H; injection H as _ _ <-; auto|].
  destruct (_ || _); [|intro H; injection H as _ _ <-; auto].
  destruct (createMessageDescriptor _ _) as [hash|];
    [|intro H; injection H as _ _ <-; auto].
  destruct (OMap.get "defaultMessage" hash);
    [|intro H; injection H as _ _ <-; auto].
  destruct (evaluateMessageDescriptor hash true) as [o|];
    [|intro H; injection H as _ _ <-; auto].
  destruct (storeMessage (destructure o) (el_loc path) state)
    as [[u|e] st] eqn:Hs.
  - destruct (removeDescription (el_attributes path));
      intro H; injection H as _ _ <-; right; eauto.
  - intro H; injection H as _ _ <-; right; eauto.
Qed.

Lemma CallExpression_map (path path' : CallExpressionNode)
      (state state' : State) (r : Completion unit) :
  CallExpression path state = (r, path', state') ->
  reactIntl_messages state' = reactIntl_messages state \/
  exists d r', storeMessage d (call_loc path) state = (r', state').
Proof.
  unfold CallExpression.
  destruct (wasExtracted_call path);
    [intro H; injection H as _ _ <-; auto|].
  destruct (match node_name (call_callee path) with
            | Some _ => _ | None => _ end);
    [|intro H; injection H as _ _ <-; auto].
  destruct (nth_error (call_arguments path) 0);
    [|intro H; injection H as _ _ <-; auto].
  destruct (getICUMessageValue _ false);
    [|intro H; injection H as _ _ <-; auto].
  cbv zeta.
  destruct (match nth_error (call_arguments path) 2 with
            | Some _ => _ | None => _ end);
    [|intro H; injection H as _ _ <-; auto].
  destruct (storeMessage _ _ _) as [[u|e] st] eqn:Hs;
    intro H; injection H as _ _ <-; right; eauto.
Qed.

Lemma storeMessage_well_formed (d : Descriptor) (at_ : SourceLocation)
      (state state' : State) (r : Completion unit) :
  well_formed (reactIntl_messages state) ->
  storeMessage d at_ state = (r, state') ->
  well_formed (reactIntl_messages state').
Proof.
  intros Hwf Hrun. destruct r as [u|e].
  - apply storeMessage_Normal in Hrun.
    destruct Hrun as (id & dm & _ & _ & Ti & Td & ->). simpl.
    destruct Hwf as [Hnd Hall]. split.
    + now apply OMap_set_NoDup.
    + apply OMap_set_Forall; [assumption|]. simpl.
      repeat split; auto. now apply storage_key_nonempty.
  - apply storeMessage_Throw in Hrun. destruct Hrun as [-> _]. assumption.
Qed.

Lemma storeMessage_keys (d : Descriptor) (at_ : SourceLocation)
      (state state' : State) (r : Completion unit) :
  storeMessage d at_ state = (r, state') ->
  OMap.keys (reactIntl_messages state') = OMap.keys (reactIntl_messages state)
  \/ exists k, OMap.get k (reactIntl_messages state) = None /\
       OMap.keys (reactIntl_messages state') =
         (OMap.keys (reactIntl_messages state) ++ [k])%list.
Proof.
  intro Hrun. destruct r as [u|e].
  - apply storeMessage_Normal in Hrun.
    destruct Hrun as (id & dm & _ & _ & _ & _ & ->). simpl.
    rewrite OMap_keys_set. unfold OMap.has.
    destruct (OMap.get (storage_key id (d_c d)) (reactIntl_messages state))
      eqn:G; [now left | right; eauto].
  - apply storeMessage_Throw in Hrun. destruct Hrun as [-> _]. now left.
Qed.

Lemma well_formed_ids (m : OMap.t Message) :
  well_formed m ->
  NoDup (map m_id (OMap.values m)) /\
  Forall (fun msg => m_id msg <> "" /\ m_defaultMessage msg <> "")
         (OMap.values m).
Proof.
  intros [Hnd Hall]. unfold OMap.keys, OMap.values in *.
  assert (E : map m_id (map snd m) = map fst m).
  { clear Hnd. induction Hall as [|[k v] r (Hk & _ & _) _ IH]; simpl;
      [reflexivity|]. simpl in Hk. now rewrite Hk, IH. }
  split; [now rewrite E|].
  clear Hnd E. induction Hall as [|[k v] r (Hk & Hne & Hdm) _ IH]; simpl;
    constructor; auto. simpl in *. split; congruence.
Qed.

(** X6.  During the traversal of a file the map stays well formed, so the
    catalog exported at [Program.exit] lists each id once, and none of its
    messages has an empty id or an empty default message. *)
Theorem catalog_lists_each_id_once
        (state0 state : State)
        (Hreach : reachable state0 state) :
  well_formed (reactIntl_messages state) /\
  exists descriptors,
    file_metadata (Program_exit state) = Some descriptors /\
    NoDup (map m_id descriptors) /\
    Forall (fun msg => m_id msg <> "" /\ m_defaultMessage msg <> "")
           descriptors.
Proof.
  assert (Hwf : well_formed (reactIntl_messages state)).
  { induction Hreach as [|st path path' r st' _ IH Hrun
                          |st path path' r st' _ IH Hrun].
    - split; constructor.
    - apply JSXOpeningElement_map in Hrun.
      destruct Hrun as [-> | (d & r' & Hs)]; [assumption|].
      eapply storeMessage_well_formed; eauto.
    - apply CallExpression_map in Hrun.
      destruct Hrun as [-> | (d & r' & Hs)]; [assumption|].
      eapply storeMessage_well_formed; eauto. }
  split; [assumption|].
  exists (OMap.values (reactIntl_messages state)).
  split; [apply Program_exit_metadata | now apply well_formed_ids].
Qed.

(** X7.  Neither callback removes or moves a row of the map, whether it
    returns or throws: the keys after it are the keys before it, or those
    followed by one key that was not in the map. *)
Theorem callbacks_only_append
        (el el' : JSXOpeningElementNode) (call call' : CallExpressionNode)
        (state state1 state2 : State) (r1 r2 : Completion unit)
        (Hel : JSXOpeningElement el state = (r1, el', state1))
        (Hcall : CallExpression call state = (r2, call', state2)) :
  (OMap.keys (reactIntl_messages state1) = OMap.keys (reactIntl_messages state)
   \/ exists k, OMap.get k (reactIntl_messages state) = None /\
        OMap.keys (reactIntl_messages state1) =
          (OMap.keys (reactIntl_messages state) ++ [k])%list) /\
  (OMap.keys (reactIntl_messages state2) = OMap.keys (reactIntl_messages state)
   \/ exists k, OMap.get k (reactIntl_messages state) = None /\
        OMap.keys (reactIntl_messages state2) =
          (OMap.keys (reactIntl_messages state) ++ [k])%list).
Proof.
  split.
  - apply JSXOpeningElement_map in Hel.
    destruct Hel as [-> | (d & r' & Hs)]; [now left|].
    eapply storeMessage_keys; eauto.
  - apply CallExpression_map in Hcall.
    destruct Hcall as [-> | (d & r' & Hs)]; [now left|].
    eapply storeMessage_keys; eauto.
Qed.

(** ** Building and evaluating descriptors *)

Lemma reduce_T_last_wins (props : list (Node * Node))
      (hash hash' : OMap.t Node) :
  reduce (addProp true) props hash = Normal hash' ->
  (OMap.get "id" hash' =
     match last_keyed MESSAGE_PROPERTY props with
     | Some v => Some v | None => OMap.get "id" hash end) /\
  (OMap.get "defaultMessage" hash' =
     match last_keyed MESSAGE_PROPERTY props with
     | Some v => Some v | None => OMap.get "defaultMessage" hash end) /\
  (OMap.get "c" hash' =
     match last_keyed COMMENT_PROPERTY props with
     | Some v => Some v | None => OMap.get "c" hash end) /\
  (forall k, k <> "id" -> k <> "defaultMessage" -> k <> "c" ->
     OMap.get k hash' = OMap.get k hash).
Proof.
  change MESSAGE_PROPERTY with "s". change COMMENT_PROPERTY with "c".
  revert hash. induction props as [|[kp vp] r IH]; simpl; intro hash.
  - intro H. injection H as <-. auto.
  - unfold addProp at 1.
    change MESSAGE_PROPERTY with "s". change COMMENT_PROPERTY with "c".
    destruct (getMessageDescriptorKey kp) as [key|] eqn:K; [|discriminate].
    simpl. intro H. apply IH in H. destruct H as (Hi & Hd & Hc & Ho).
    rewrite Hi, Hd, Hc. clear Hi Hd Hc IH.
    destruct (is_string key "s") eqn:Es.
    + assert (Ec : is_string key "c" = false).
      { apply is_string_true in Es. now subst key. }
      rewrite Ec.
      repeat split;
        try (destruct (last_keyed "s" r); omap; reflexivity);
        try (destruct (last_keyed "c" r); omap; reflexivity).
      intros k H1 H2 H3. rewrite Ho by assumption.
      now repeat rewrite OMap_get_set_neq by congruence.
    + destruct (is_string key "c") eqn:Ec.
      * repeat split;
          try (destruct (last_keyed "s" r); omap; reflexivity);
          try (destruct (last_keyed "c" r); omap; reflexivity).
        intros k H1 H2 H3. rewrite Ho by assumption.
        now rewrite OMap_get_set_neq by congruence.
      * repeat split;
          try (now destruct (last_keyed "s" r));
          try (now destruct (last_keyed "c" r)).
Qed.

Lemma reduce_standard_last_wins (props : list (Node * Node))
      (hash hash' : OMap.t Node) (k : string) :
  reduce (addProp false) props hash = Normal hash' ->
  OMap.get k hash' =
    match (if existsb (String.eqb k) DESCRIPTOR_PROPS
           then last_keyed k props else None) with
    | Some v => Some v
    | None => OMap.get k hash
    end.
Proof.
  set (known := fun s => existsb (String.eqb s) DESCRIPTOR_PROPS).
  change (existsb (String.eqb k) DESCRIPTOR_PROPS) with (known k).
  revert hash. induction props as [|[kp vp] r IH];
    cbn [reduce last_keyed]; intro hash.
  - intro H. injection H as <-. now destruct (known k).
  - unfold addProp at 1.
    destruct (getMessageDescriptorKey kp) as [key|] eqn:K; [|discriminate].
    cbn [bind]. intro H. apply IH in H. rewrite H. clear H IH.
    destruct key as [s| | | |]; cbn [is_string];
      try (now destruct (known k); [destruct (last_keyed k r)|]).
    fold (known s).
    destruct (String.eqb s k) eqn:E.
    + apply String.eqb_eq in E. subst s.
      destruct (known k); [|reflexivity].
      destruct (last_keyed k r); [reflexivity|]. apply OMap_get_set_eq.
    + apply String.eqb_neq in E.
      assert (G : OMap.get k (if known s then OMap.set s vp hash else hash) =
                  OMap.get k hash).
      { destruct (known s); [now apply OMap_get_set_neq | reflexivity]. }
      rewrite G.
      destruct (known k); [now destruct (last_keyed k r) | reflexivity].
Qed.

(** X4.  The raw descriptor of a [T] element: [id] and [defaultMessage]
    are both the value of the last attribute named [s], [c] is the value of
    the last attribute named [c], and the descriptor has no other
    property, whatever other attributes the element has. *)
Theorem createMessageDescriptor_T_last_wins
        (props : list (Node * Node)) (hash : OMap.t Node)
        (Hcreate : createMessageDescriptor props true = Normal hash) :
  OMap.get "id" hash = last_keyed MESSAGE_PROPERTY props /\
  OMap.get "defaultMessage" hash = last_keyed MESSAGE_PROPERTY props /\
  OMap.get "c" hash = last_keyed COMMENT_PROPERTY props /\
  (forall k, k <> "id" -> k <> "defaultMessage" -> k <> "c" ->
     OMap.get k hash = None).
Proof.
  apply reduce_T_last_wins in Hcreate.
  destruct Hcreate as (Hi & Hd & Hc & Ho).
  unfold OMap.empty in *. cbn [OMap.get] in *.
  rewrite Hi, Hd, Hc. split; [|split; [|split]].
  - now destruct (last_keyed MESSAGE_PROPERTY props).
  - now destruct (last_keyed MESSAGE_PROPERTY props).
  - now destruct (last_keyed COMMENT_PROPERTY props).
  - exact Ho.
Qed.

(** X5.  The raw descriptor of the standard shape: each of [id],
    [description] and [defaultMessage] is the value of the last pair with
    that key, and a property of any other name is ignored. *)
Theorem createMessageDescriptor_standard_last_wins
        (props : list (Node * Node)) (hash : OMap.t Node) (k : string)
        (Hcreate : createMessageDescriptor props false = Normal hash) :
  OMap.get k hash =
    if existsb (String.eqb k) DESCRIPTOR_PROPS
    then last_keyed k props else None.
Proof.
  apply (reduce_standard_last_wins props OMap.empty hash k) in Hcreate.
  rewrite Hcreate. simpl OMap.get.
  now destruct (if existsb _ _ then _ else _).
Qed.

Lemma reduce_addProp_Throw (isTComp : bool) (props : list (Node * Node))
      (hash : OMap.t Node) (e : Error) :
  reduce (addProp isTComp) props hash = Throw e ->
  exists pre keyPath valuePath post,
    props = (pre ++ (keyPath, valuePath) :: post)%list /\
    Forall (fun prop => exists key,
              getMessageDescriptorKey (fst prop) = Normal key) pre /\
    getMessageDescriptorKey keyPath = Throw e.
Proof.
  revert hash. induction props as [|[kp vp] r IH]; simpl; intro hash;
    [discriminate|].
  unfold addProp at 1.
  destruct (getMessageDescriptorKey kp) as [key|e'] eqn:K; simpl.
  - intro H. apply IH in H.
    destruct H as (pre & keyPath & valuePath & post & -> & Hpre & Hk).
    exists ((kp, vp) :: pre), keyPath, valuePath, post.
    repeat split; auto. constructor; simpl; eauto.
  - intro H. injection H as <-.
    exists [], kp, vp, r. repeat split; auto.
Qed.

Lemma reduce_addProp_Normal (isTComp : bool) (props : list (Node * Node))
      (hash : OMap.t Node) :
  Forall (fun prop => exists key,
            getMessageDescriptorKey (fst prop) = Normal key) props ->
  exists hash', reduce (addProp isTComp) props hash = Normal hash'.
Proof.
  revert hash. induction props as [|[kp vp] r IH]; simpl; intros hash H.
  - eauto.
  - inversion H as [|x l (key & Hk) Hr]; subst. simpl in Hk.
    unfold addProp at 1. rewrite Hk. simpl. now apply IH.
Qed.

(** X8.  Building a descriptor fails only on a key: when it throws, the
    error is that of the first pair whose key is not an identifier and
    cannot be evaluated, located at that key; when every key is an
    identifier it does not throw, whatever the values are. *)
Theorem createMessageDescriptor_fails_only_on_keys
        (props : list (Node * Node)) (isTComp : bool) :
  (forall e, createMessageDescriptor props isTComp = Throw e ->
     exists pre keyPath valuePath post,
       props = (pre ++ (keyPath, valuePath) :: post)%list /\
       Forall (fun prop => exists key,
                 getMessageDescriptorKey (fst prop) = Normal key) pre /\
       node_name keyPath = None /\
       evaluate keyPath = None /\
       e = CodeFrameError (node_loc keyPath)
             "[React Intl] Messages must be statically evaluate-able for extraction.") /\
  (Forall (fun prop => node_name (fst prop) <> None) props ->
   exists hash, createMessageDescriptor props isTComp = Normal hash).
Proof.
  split.
  - intros e H. apply reduce_addProp_Throw in H.
    destruct H as (pre & kp & vp & post & -> & Hpre & Hk).
    exists pre, kp, vp, post. repeat split; auto;
      destruct kp; simpl in Hk; try discriminate;
      unfold evaluatePath in Hk;
      match type of Hk with
      | context [evaluate ?n] => destruct (evaluate n) eqn:E
      end; try discriminate; auto; now injection Hk as <-.
  - intro H. apply reduce_addProp_Normal.
    eapply Forall_impl; [|exact H].
    intros [kp vp]. simpl. destruct kp; simpl; intro Hn;
      try congruence; eauto.
Qed.

Lemma evaluateMessageDescriptor_Forall2 (descriptor : OMap.t Node)
      (isJSXSource : bool) (o : OMap.t string) :
  evaluateMessageDescriptor descriptor isJSXSource = Normal o <->
  Forall2 (fun raw resolved =>
             fst resolved = fst raw /\
             resolve isJSXSource (fst raw) (snd raw) = Normal (snd resolved))
          descriptor o.
Proof.
  revert o. induction descriptor as [|[key vp] rest IH]; simpl; intro o.
  - split.
    + intro H. injection H as <-. constructor.
    + intro H. inversion H. reflexivity.
  - fold (resolve isJSXSource key vp). split.
    + destruct (resolve isJSXSource key vp) as [s|] eqn:E; [|discriminate].
      simpl.
      destruct (evaluateMessageDescriptor rest isJSXSource) as [rest'|];
        [|discriminate].
      simpl. intro H. injection H as <-. constructor; [now split|].
      now apply IH.
    + intro H. inversion H as [|x [k s] l l' (Hk & Hr) Hrest]; subst.
      simpl in *. subst k. rewrite Hr. simpl.
      apply IH in Hrest. rewrite Hrest. reflexivity.
Qed.

(** X9.  Evaluating a descriptor succeeds exactly when every property
    resolves, the default message through the printer and the others by
    plain evaluation and trimming; the evaluated descriptor has the same
    property names in the same order. *)
Theorem evaluateMessageDescriptor_resolves_each_property
        (descriptor : OMap.t Node) (isJSXSource : bool) :
  (forall o,
     evaluateMessageDescriptor descriptor isJSXSource = Normal o ->
     OMap.keys o = OMap.keys descriptor /\
     forall k valuePath, OMap.get k descriptor = Some valuePath ->
       exists s, OMap.get k o = Some s /\
                 resolve isJSXSource k valuePath = Normal s) /\
  (Forall (fun raw => exists s,
             resolve isJSXSource (fst raw) (snd raw) = Normal s) descriptor ->
   exists o, evaluateMessageDescriptor descriptor isJSXSource = Normal o).
Proof.
  split.
  - intros o H. split.
    + apply evaluateMessageDescriptor_Forall2 in H.
      unfold OMap.keys. induction H as [|x y l l' (Hk & _) _ IH]; simpl;
        [reflexivity|]. now rewrite Hk, IH.
    + intros k vp G.
      assert (E := evaluateMessageDescriptor_get descriptor isJSXSource o k H).
      rewrite G in E. exact E.
  - induction descriptor as [|[key vp] rest IH]; intro H.
    + exists []. reflexivity.
    + inversion H as [|x l (s & Hs) Hr]; subst. simpl in Hs.
      destruct (IH Hr) as (o & Ho).
      exists ((key, s) :: o). simpl. fold (resolve isJSXSource key vp).
      rewrite Hs. simpl. now rewrite Ho.
Qed.

(** ** Resolution of values: trimming and errors *)

Lemma append_assoc (a b c : string) : (a ++ b) ++ c = a ++ b ++ c.
Proof. induction a as [|x a IH]; simpl; [reflexivity | now rewrite IH]. Qed.

Lemma append_inv_head (a b c : string) : a ++ b = a ++ c -> b = c.
Proof.
  induction a as [|x a IH]; simpl; intro H; [assumption|].
  injection H as H. auto.
Qed.

Lemma prefix_true (pat s : string) :
  prefix pat s = true -> exists b, s = pat ++ b.
Proof.
  revert s. induction pat as [|x pat IH]; intros s H.
  - exists s. reflexivity.
  - destruct s as [|y s]; simpl in H; [discriminate|].
    destruct (ascii_dec x y) as [->|]; [|discriminate].
    destruct (IH s H) as (b & ->). exists b. reflexivity.
Qed.

Lemma occurs_indexOf (pat s : string) :
  (0 <=? JSString.indexOf pat s)%Z = true -> occurs pat s.
Proof.
  induction s as [|x s IH]; cbn [JSString.indexOf].
  - destruct (prefix pat "") eqn:P; [|discriminate].
    intros _. apply prefix_true in P. destruct P as (b & E).
    exists "", b. exact E.
  - destruct (prefix pat (String x s)) eqn:P.
    + intros _. apply prefix_true in P. destruct P as (b & E).
      exists "", b. exact E.
    + cbv zeta.
      destruct (JSString.indexOf pat s <? 0)%Z eqn:L; [discriminate|].
      intros _. apply Z.ltb_ge in L. apply Z.leb_le in L.
      destruct (IH L) as (a & b & ->). exists (String x a), b. reflexivity.
Qed.

Lemma trimStart_suffix (s : string) :
  exists w, s = w ++ JSString.trimStart s.
Proof.
  induction s as [|x s (w & IH)]; simpl.
  - exists "". reflexivity.
  - destruct (JSString.is_whitespace x).
    + exists (String x w). simpl. now rewrite <- IH.
    + exists "". reflexivity.
Qed.

Lemma trimEnd_prefix (s : string) :
  exists w, s = JSString.trimEnd s ++ w.
Proof.
  induction s as [|x s (w & IH)]; simpl.
  - exists "". reflexivity.
  - destruct (JSString.is_whitespace x && JSString.is_empty (JSString.trimEnd s)).
    + exists (String x s). reflexivity.
    + exists w. simpl. now rewrite <- IH.
Qed.

Lemma occurs_of_trim (pat s : string) :
  occurs pat (JSString.trim s) -> occurs pat s.
Proof.
  unfold JSString.trim. intros (a & b & E).
  destruct (trimStart_suffix s) as (w1 & E1).
  destruct (trimEnd_prefix (JSString.trimStart s)) as (w2 & E2).
  exists (w1 ++ a), (b ++ w2).
  rewrite E1 at 1. rewrite E2 at 1. rewrite E.
  now rewrite !append_assoc.
Qed.

Lemma trimStart_starts (s : string) :
  starts_with_whitespace (JSString.trimStart s) = false.
Proof.
  induction s as [|x s IH]; simpl; [reflexivity|].
  destruct (JSString.is_whitespace x) eqn:W; [assumption|].
  simpl. exact W.
Qed.

Lemma trimEnd_starts (s : string) :
  starts_with_whitespace s = false ->
  starts_with_whitespace (JSString.trimEnd s) = false.
Proof.
  destruct s as [|x s]; simpl; [reflexivity|].
  intro W. rewrite W. simpl. exact W.
Qed.

Lemma trimEnd_ends (s : string) :
  ends_with_whitespace (JSString.trimEnd s) = false.
Proof.
  induction s as [|x s IH]; simpl; [reflexivity|].
  destruct (JSString.is_whitespace x) eqn:W;
    destruct (JSString.trimEnd s) as [|y t] eqn:E; simpl; auto.
Qed.

Lemma trimStart_fixed (s : string) :
  starts_with_whitespace s = false -> JSString.trimStart s = s.
Proof. destruct s; simpl; [reflexivity|]. now intros ->. Qed.

Lemma trimEnd_fixed (s : string) :
  ends_with_whitespace s = false -> JSString.trimEnd s = s.
Proof.
  induction s as [|x s IH]; simpl; [reflexivity|].
  destruct s as [|y t].
  - simpl. now intros ->.
  - intro H. rewrite (IH H). simpl. now rewrite andb_false_r.
Qed.

(** X10.  What [getMessageDescriptorValue] returns carries no white space
    at either end, and trimming it again changes nothing. *)
Theorem getMessageDescriptorValue_is_trimmed
        (path : Node) (s : string)
        (Hvalue : getMessageDescriptorValue path = Normal s) :
  starts_with_whitespace s = false /\
  ends_with_whitespace s = false /\
  JSString.trim s = s.
Proof.
  apply getMessageDescriptorValue_Normal in Hvalue.
  destruct Hvalue as (v & _ & ->). unfold JSString.trim.
  assert (Hs : starts_with_whitespace
                 (JSString.trimEnd (JSString.trimStart v)) = false)
    by apply trimEnd_starts, trimStart_starts.
  assert (He : ends_with_whitespace
                 (JSString.trimEnd (JSString.trimStart v)) = false)
    by apply trimEnd_ends.
  repeat split; auto.
  rewrite (trimStart_fixed _ Hs). now apply trimEnd_fixed.
Qed.

(** X11.  The errors of [getICUMessageValue].  It throws when the value
    cannot be evaluated (an error located at the expression, inside its
    container if it has one), when the value is not a string, or when the
    printer rejects the trimmed string; in the last case the error is
    located at the value path itself and is the escaping diagnostic
    exactly when the source is JSX, the path is a literal and two
    backslashes occur in a row in the value, and the generic parse error
    with the parser's diagnostic otherwise. *)
Theorem getICUMessageValue_errors
        (messagePath : Node) (isJSXSource : bool) (e : Error)
        (Hthrow : getICUMessageValue messagePath isJSXSource = Throw e) :
  (evaluate (expression_of messagePath) = None /\
   e = CodeFrameError (node_loc (expression_of messagePath))
         evaluation_message) \/
  (exists value,
     evaluate (expression_of messagePath) = Some value /\
     (forall s, value <> VString s) /\
     exists message, e = TypeError message) \/
  (exists v parseError,
     evaluate (expression_of messagePath) = Some (VString v) /\
     printICUMessage (JSString.trim v) = ParseError parseError /\
     ((isJSXSource = true /\ isLiteral messagePath = true /\
       occurs "\\" v /\
       e = CodeFrameError (node_loc messagePath) escaping_message) \/
      (~ (isJSXSource = true /\ isLiteral messagePath = true /\
          occurs "\\" v) /\
       e = CodeFrameError (node_loc messagePath)
             (parse_message parseError)))).
Proof.
  unfold getICUMessageValue, getMessageDescriptorValue, evaluatePath in Hthrow.
  destruct (evaluate (expression_of messagePath)) as [value|] eqn:Ev;
    cbn [bind] in Hthrow.
  2:{ left. injection Hthrow as <-. auto. }
  right.
  destruct value as [v| | | |];
    try (left; eexists; split; [reflexivity|]; split;
         [discriminate | injection Hthrow as <-; eauto]).
  right. cbn [bind] in Hthrow.
  destruct (printICUMessage (JSString.trim v)) as [m|parseError] eqn:P;
    [discriminate|].
  exists v, parseError. split; [reflexivity|]. split; [exact P|].
  destruct isJSXSource; cbn [andb] in Hthrow.
  - destruct (isLiteral messagePath); cbn [andb] in Hthrow.
    + destruct (0 <=? JSString.indexOf "\\" (JSString.trim v))%Z eqn:I;
        injection Hthrow as <-.
      * left. repeat split. now apply occurs_of_trim, occurs_indexOf.
      * right. split; [|reflexivity]. intros (_ & _ & Ho).
        apply occurs_trim, indexOf_occurs in Ho. congruence.
    + injection Hthrow as <-. right. split; [|reflexivity].
      intros (_ & H & _). discriminate.
  - injection Hthrow as <-. right. split; [|reflexivity].
    intros (H & _). discriminate.
Qed.

(** ** What the element callback does to the element *)

Lemma removeDescription_spec (attrs attrs' : list JSXAttr) :
  removeDescription attrs = Normal attrs' ->
  (attrs' = attrs /\ Forall (fun a => ~ names_description a) attrs) \/
  (exists pre a post,
     attrs = (pre ++ a :: post)%list /\
     attrs' = (pre ++ post)%list /\
     names_description a /\
     Forall (fun a => ~ names_description a) pre).
Proof.
  revert attrs'. induction attrs as [|[name value|arg] r IH]; simpl;
    intro attrs'.
  - intro H. injection H as <-. left. split; [reflexivity | constructor].
  - destruct (getMessageDescriptorKey name) as [key|] eqn:K; [|discriminate].
    cbn [bind]. destruct (is_string key "description") eqn:E.
    + intro H. injection H as <-. right.
      exists [], (JSXAttribute name value), r.
      repeat split; auto. simpl. apply is_string_true in E. now subst key.
    + destruct (removeDescription r) as [r'|]; [|discriminate].
      cbn [bind]. intro H. injection H as <-.
      assert (Hn : ~ names_description (JSXAttribute name value)).
      { simpl. rewrite K. intro H. injection H as ->.
        simpl in E. discriminate. }
      destruct (IH r' eq_refl) as [[-> Hall] | (pre & a & post & -> & -> & Ha & Hpre)].
      * left. split; [reflexivity | now constructor].
      * right. exists (JSXAttribute name value :: pre), a, post.
        repeat split; auto.
  - destruct (removeDescription r) as [r'|]; [|discriminate].
    cbn [bind]. intro H. injection H as <-.
    assert (Hn : ~ names_description (JSXSpreadAttribute arg))
      by (intro F; exact F).
    destruct (IH r' eq_refl) as [[-> Hall] | (pre & a & post & -> & -> & Ha & Hpre)].
    + left. split; [reflexivity | now constructor].
    + right. exists (JSXSpreadAttribute arg :: pre), a, post.
      repeat split; auto.
Qed.

(** X12.  What an extraction does to the element: it tags it, keeps its
    name and place, and removes the first attribute named [description],
    if there is one, and nothing else; spreads and the other attributes
    stay, in their order. *)
Theorem extraction_removes_first_description_only
        (path path' : JSXOpeningElementNode) (state state' : State)
        (Hnew : wasExtracted_element path = false)
        (Hrun : JSXOpeningElement path state = (Normal tt, path', state'))
        (Htagged : wasExtracted_element path' = true) :
  el_name path' = el_name path /\
  el_loc path' = el_loc path /\
  ((el_attributes path' = el_attributes path /\
    Forall (fun a => ~ names_description a) (el_attributes path)) \/
   (exists pre a post,
      el_attributes path = (pre ++ a :: post)%list /\
      el_attributes path' = (pre ++ post)%list /\
      names_description a /\
      Forall (fun a => ~ names_description a) pre)).
Proof using evaluate path_referencesImport printICUMessage p_relative
            process_cwd.
  unfold JSXOpeningElement in Hrun. rewrite Hnew in Hrun.
  unfold wasExtracted_element in *.
  destruct (path_referencesImport _ _ _);
    [injection Hrun as <- _; rewrite Hnew in Htagged; discriminate|].
  destruct (_ || _); [|injection Hrun as <- _; rewrite Hnew in Htagged; discriminate].
  destruct (createMessageDescriptor _ _) as [hash|]; [|discriminate].
  destruct (OMap.get "defaultMessage" hash);
    [|injection Hrun as <- _; rewrite Hnew in Htagged; discriminate].
  destruct (evaluateMessageDescriptor hash true) as [o|]; [|discriminate].
  destruct (storeMessage _ _ _) as [[u|e] st]; [|discriminate].
  destruct (removeDescription (el_attributes path)) as [attrs'|] eqn:R;
    [|discriminate].
  injection Hrun as <- _. simpl.
  repeat split. now apply removeDescription_spec.
Qed.

Lemma last_keyed_None (k : string) (props : list (Node * Node)) :
  Forall (fun prop => exists key,
            getMessageDescriptorKey (fst prop) = Normal key /\
            is_string key k = false) props ->
  last_keyed k props = None.
Proof.
  induction 1 as [|[kp vp] r (key & Hk & Hs) _ IH]; simpl; [reflexivity|].
  simpl in Hk. now rewrite IH, Hk, Hs.
Qed.

(** X13.  An element whose attribute names all have a key, none of them
    [s], is left alone, whatever its tag: the callback returns normally,
    stores nothing, and neither tags the element nor removes an attribute.
    This is so for an element that only spreads an object. *)
Theorem element_without_message_is_left_alone
        (path : JSXOpeningElementNode) (state : State)
        (Hno_s : Forall (fun prop => exists key,
                           getMessageDescriptorKey (fst prop) = Normal key /\
                           is_string key MESSAGE_PROPERTY = false)
                        (attribute_pairs (el_attributes path))) :
  exists state',
    JSXOpeningElement path state = (Normal tt, path, state') /\
    reactIntl_messages state' = reactIntl_messages state.
Proof.
  unfold JSXOpeningElement.
  destruct (wasExtracted_element path); [eauto|].
  destruct (path_referencesImport _ _ _); [eauto|].
  rewrite referencesImport_COMPONENT_NAMES. cbn [orb].
  destruct (match node_name (el_name path) with
            | Some _ => _ | None => _ end); [|eauto].
  destruct (reduce_addProp_Normal true (attribute_pairs (el_attributes path))
              OMap.empty) as (hash & Hc).
  { eapply Forall_impl; [|exact Hno_s]. intros a (key & Hk & _). eauto. }
  unfold createMessageDescriptor. rewrite Hc.
  apply reduce_T_last_wins in Hc. destruct Hc as (_ & Hd & _).
  rewrite (last_keyed_None _ _ Hno_s) in Hd. simpl in Hd. rewrite Hd. eauto.
Qed.

(** X14.  Comments keep messages of one id apart: after two descriptors
    with the same id and two comments that differ, neither empty, have
    been stored one after the other, the map has both messages, each
    under its own key. *)
Theorem comments_keep_messages_apart
        (d1 d2 : Descriptor) (at1 at2 : SourceLocation)
        (state state1 state2 : State) (id c1 c2 dm1 dm2 : string)
        (Hid1 : d_id d1 = Some id) (Hid2 : d_id d2 = Some id)
        (Hdm1 : d_defaultMessage d1 = Some dm1)
        (Hdm2 : d_defaultMessage d2 = Some dm2)
        (Hc1 : d_c d1 = Some c1) (Hc2 : d_c d2 = Some c2)
        (Hc1_ne : c1 <> "") (Hc2_ne : c2 <> "") (Hdiff : c1 <> c2)
        (Hfirst : storeMessage d1 at1 state = (Normal tt, state1))
        (Hsecond : storeMessage d2 at2 state1 = (Normal tt, state2)) :
  id ++ "##" ++ c1 <> id ++ "##" ++ c2 /\
  OMap.get (id ++ "##" ++ c1) (reactIntl_messages state2) =
    Some (stored_message d1 at1 state id dm1) /\
  OMap.get (id ++ "##" ++ c2) (reactIntl_messages state2) =
    Some (stored_message d2 at2 state1 id dm2).
Proof.
  assert (Hne : id ++ "##" ++ c1 <> id ++ "##" ++ c2).
  { intro E. apply append_inv_head in E. simpl in E. injection E as E.
    contradiction. }
  assert (K1 : storage_key id (d_c d1) = id ++ "##" ++ c1).
  { unfold storage_key. rewrite Hc1.
    apply truthy_nonempty in Hc1_ne. now rewrite Hc1_ne. }
  assert (K2 : storage_key id (d_c d2) = id ++ "##" ++ c2).
  { unfold storage_key. rewrite Hc2.
    apply truthy_nonempty in Hc2_ne. now rewrite Hc2_ne. }
  apply storeMessage_Normal in Hfirst, Hsecond.
  destruct Hfirst as (i1 & m1 & Hi1 & Hm1 & _ & _ & ->).
  destruct Hsecond as (i2 & m2 & Hi2 & Hm2 & _ & _ & ->).
  rewrite Hid1 in Hi1. rewrite Hid2 in Hi2. rewrite Hdm1 in Hm1.
  rewrite Hdm2 in Hm2.
  injection Hi1 as <-. injection Hi2 as <-.
  injection Hm1 as <-. injection Hm2 as <-.
  rewrite K1, K2. cbn [reactIntl_messages set_messages].
  split; [assumption|]. split.
  - rewrite OMap_get_set_neq by congruence.
    rewrite OMap_get_set_eq. unfold stored_message. now rewrite K1.
  - rewrite OMap_get_set_eq. unfold stored_message. now rewrite K2.
Qed.

(** ** Extraction from end to end *)

Lemma OMap_In_get {V} (k : string) (v : V) (m : OMap.t V) :
  NoDup (OMap.keys m) -> In (k, v) m -> OMap.get k m = Some v.
Proof.
  unfold OMap.keys. induction m as [|[k' v'] r IH]; simpl; [intros _ []|].
  intros Hnd [H|H].
  - injection H as -> ->. now rewrite String.eqb_refl.
  - inversion Hnd as [|x l Hx Hr]; subst.
    destruct (String.eqb k k') eqn:E.
    + apply String.eqb_eq in E. subst k'. exfalso. apply Hx.
      now apply (in_map fst) in H.
    + auto.
Qed.

Lemma reduce_addProp_NoDup (isTComp : bool) (props : list (Node * Node))
      (hash hash' : OMap.t Node) :
  NoDup (OMap.keys hash) ->
  reduce (addProp isTComp) props hash = Normal hash' ->
  NoDup (OMap.keys hash').
Proof.
  revert hash. induction props as [|[kp vp] r IH]; cbn [reduce];
    intros hash Hnd.
  - intro H. now injection H as <-.
  - unfold addProp at 1.
    destruct (getMessageDescriptorKey kp) as [key|]; [|discriminate].
    cbn [bind]. apply IH.
    destruct isTComp.
    + destruct (is_string key MESSAGE_PROPERTY);
        [now repeat apply OMap_set_NoDup|].
      destruct (is_string key COMMENT_PROPERTY);
        [now apply OMap_set_NoDup | assumption].
    + destruct key; try assumption.
      destruct (existsb _ _); [now apply OMap_set_NoDup | assumption].
Qed.

Lemma evaluateMessageDescriptor_Normal_intro (descriptor : OMap.t Node)
      (isJSXSource : bool) :
  Forall (fun raw => exists s,
            resolve isJSXSource (fst raw) (snd raw) = Normal s) descriptor ->
  exists o, evaluateMessageDescriptor descriptor isJSXSource = Normal o.
Proof.
  induction descriptor as [|[key vp] rest IH]; intro H.
  - exists []. reflexivity.
  - inversion H as [|x l (s & Hs) Hr]; subst. simpl in Hs.
    destruct (IH Hr) as (o & Ho).
    exists ((key, s) :: o). simpl. fold (resolve isJSXSource key vp).
    rewrite Hs. simpl. now rewrite Ho.
Qed.

(** X15.  A [T] element is extracted when: it is not tagged and its tag is
    not an import of FormattedPlural; its attribute names are identifiers;
    the value of its last [s] attribute evaluates to a string that is not
    empty once trimmed and that the printer prints as a text that is not
    empty; the value of its last [c] attribute, if it has one, evaluates to
    a string; the descriptor does not conflict with the entry under the
    trimmed text; and descriptions are not enforced.  Then the callback
    returns normally, the message is in the map under the storage key, and
    the element comes back tagged, without its first [description]
    attribute. *)
Theorem T_element_is_extracted
        (path : JSXOpeningElementNode) (state : State)
        (valuePath : Node) (v text : string) (c : option string)
        (HT : node_name (el_name path) = Some COMPONENT_NAME)
        (Hnew : wasExtracted_element path = false)
        (Hplural : path_referencesImport (el_name path)
                     (getModuleSourceName (opts state)) "FormattedPlural"
                   = false)
        (Hnames : Forall (fun prop => node_name (fst prop) <> None)
                         (attribute_pairs (el_attributes path)))
        (Hs : last_keyed MESSAGE_PROPERTY
                (attribute_pairs (el_attributes path)) = Some valuePath)
        (Hv : evaluate (expression_of valuePath) = Some (VString v))
        (Htext : printICUMessage (JSString.trim v) = Printed text)
        (Hv_ne : JSString.trim v <> "") (Htext_ne : text <> "")
        (Hc : match last_keyed COMMENT_PROPERTY
                      (attribute_pairs (el_attributes path)) with
              | Some cValue =>
                  exists w,
                    evaluate (expression_of cValue) = Some (VString w) /\
                    c = Some (JSString.trim w)
              | None => c = None
              end)
        (Hno_conflict :
           ~ conflicting
               (mkDescriptor (Some (JSString.trim v)) None (Some text) c)
               state)
        (Hfree : enforceDescriptions (opts state) = false) :
  let d := mkDescriptor (Some (JSString.trim v)) None (Some text) c in
  let key := storage_key (JSString.trim v) c in
  exists attrs',
    removeDescription (el_attributes path) = Normal attrs' /\
    JSXOpeningElement path state =
      (Normal tt,
       mkElement (el_loc path) (el_name path) attrs' true,
       set_messages state
         (OMap.set key
            (stored_message d (el_loc path) state (JSString.trim v) text)
            (reactIntl_messages state))).
Proof using evaluate path_referencesImport printICUMessage p_relative
            process_cwd.
  intros d key.
  set (props := attribute_pairs (el_attributes path)) in *.
  assert (Hkeys : Forall (fun prop => exists k,
                     getMessageDescriptorKey (fst prop) = Normal k) props).
  { eapply Forall_impl; [|exact Hnames].
    intros [kp vp]. simpl. destruct kp; simpl; intro Hn;
      eauto; exfalso; apply Hn; reflexivity. }
  destruct (reduce_addProp_Normal true props OMap.empty Hkeys)
    as (hash & Hcreate).
  assert (Hnd : NoDup (OMap.keys hash)).
  { eapply reduce_addProp_NoDup; [|exact Hcreate]. constructor. }
  destruct (reduce_T_last_wins _ _ _ Hcreate) as (Gi & Gd & Gc & Go).
  rewrite Hs in Gi, Gd. unfold OMap.empty in Gc, Go. cbn [OMap.get] in Gc, Go.
  assert (Gc' : OMap.get "c" hash = last_keyed COMMENT_PROPERTY props)
    by (rewrite Gc; now destruct (last_keyed COMMENT_PROPERTY props)).
  clear Gc.
  assert (Rid : getMessageDescriptorValue valuePath =
                Normal (JSString.trim v))
    by (apply getMessageDescriptorValue_Normal; eauto).
  assert (Rdm : getICUMessageValue valuePath true = Normal text)
    by (apply getICUMessageValue_Normal; eauto).
  destruct (evaluateMessageDescriptor_Normal_intro hash true) as (o & Ho).
  { apply Forall_forall. intros [k vp] Hin. simpl.
    apply (OMap_In_get _ _ _ Hnd) in Hin. unfold resolve.
    destruct (String.eqb k "defaultMessage") eqn:Ed.
    - apply String.eqb_eq in Ed. subst k. rewrite Gd in Hin.
      injection Hin as <-. eauto.
    - apply String.eqb_neq in Ed.
      destruct (String.eqb k "id") eqn:Ei.
      + apply String.eqb_eq in Ei. subst k. rewrite Gi in Hin.
        injection Hin as <-. eauto.
      + apply String.eqb_neq in Ei.
        destruct (String.eqb k "c") eqn:Ec.
        * apply String.eqb_eq in Ec. subst k. rewrite Gc' in Hin.
          rewrite Hin in Hc. destruct Hc as (w & Hw & _).
          exists (JSString.trim w).
          apply getMessageDescriptorValue_Normal. eauto.
        * apply String.eqb_neq in Ec. rewrite Go in Hin by assumption.
          discriminate. }
  assert (Ei := evaluateMessageDescriptor_get hash true o "id" Ho).
  assert (Ed := evaluateMessageDescriptor_get hash true o "defaultMessage" Ho).
  assert (Ee := evaluateMessageDescriptor_get hash true o "description" Ho).
  assert (Ec := evaluateMessageDescriptor_get hash true o "c" Ho).
  rewrite Gi in Ei. rewrite Gd in Ed. rewrite Gc' in Ec.
  rewrite Go in Ee by discriminate.
  cbn [String.eqb Ascii.eqb Bool.eqb] in Ei, Ed, Ec.
  destruct Ei as (si & Oi & Ri). rewrite Rid in Ri. injection Ri as <-.
  destruct Ed as (sd & Od & Rd). rewrite Rdm in Rd. injection Rd as <-.
  assert (Oc : OMap.get "c" o = c).
  { destruct (last_keyed COMMENT_PROPERTY props) as [cValue|].
    - destruct Hc as (w & Hw & ->). destruct Ec as (sc & -> & Rc).
      apply getMessageDescriptorValue_Normal in Rc.
      destruct Rc as (w' & Hw' & ->). rewrite Hw in Hw'.
      now injection Hw' as <-.
    - now rewrite Ec, Hc. }
  assert (Hd : destructure o = d).
  { unfold destructure, d. now rewrite Oi, Od, Ee, Oc. }
  destruct (removeDescription_Normal (el_attributes path) Hkeys)
    as (attrs' & Hrem).
  exists attrs'. split; [assumption|].
  unfold JSXOpeningElement.
  rewrite Hnew, Hplural, HT, String.eqb_refl, orb_true_r.
  fold props. unfold createMessageDescriptor. rewrite Hcreate, Gd, Ho, Hd.
  rewrite (storeMessage_passes d (el_loc path) state (JSString.trim v) text
             eq_refl eq_refl Hv_ne Htext_ne Hno_conflict (or_introl Hfree)).
  rewrite Hrem. reflexivity.
Qed.

(** X16.  A message that is written twice is one row: when the call
    callback has extracted a call of [t], it extracts another call of [t]
    with the same arguments as well, and the map keeps the keys it had. *)
Theorem repeated_t_call_adds_no_row
        (path1 path1' path2 : CallExpressionNode) (state state1 : State)
        (Hnew1 : wasExtracted_call path1 = false)
        (Hnew2 : wasExtracted_call path2 = false)
        (Ht1 : node_name (call_callee path1) = Some "t")
        (Ht2 : node_name (call_callee path2) = Some "t")
        (Hargs : call_arguments path2 = call_arguments path1)
        (Hfirst : CallExpression path1 state = (Normal tt, path1', state1)) :
  exists state2,
    CallExpression path2 state1 =
      (Normal tt, tagAsExtracted_call path2, state2) /\
    OMap.keys (reactIntl_messages state2) =
      OMap.keys (reactIntl_messages state1).
Proof.
  unfold CallExpression in *.
  rewrite Hnew1, Ht1 in Hfirst. rewrite Hnew2, Ht2, Hargs.
  cbn [String.eqb Ascii.eqb Bool.eqb] in *.
  destruct (nth_error (call_arguments path1) 0) as [textPath|];
    [|discriminate].
  destruct (getICUMessageValue textPath false) as [text|]; [|discriminate].
  cbv zeta in *.
  destruct (match nth_error (call_arguments path1) 2 with
            | Some _ => _ | None => _ end) as [c|]; [|discriminate].
  destruct (storeMessage _ (call_loc path1) state) as [[u|e] st] eqn:Hs;
    [|discriminate].
  injection Hfirst as _ <-.
  destruct (storeMessage_again _ _ (call_loc path2) _ _ _ Hs)
    as (state2 & Hs2 & Hk & _).
  exists state2. rewrite Hs2. auto.
Qed.

(** ** Errors of the call callback, and enforced descriptions *)

Lemma evaluation_message_differs :
  evaluation_message <> escaping_message.
Proof. unfold evaluation_message, escaping_message. simpl. discriminate. Qed.

Lemma store_messages_differ (id : string) :
  required_message <> escaping_message /\
  duplicate_message id <> escaping_message /\
  description_message <> escaping_message.
Proof.
  unfold required_message, duplicate_message, description_message,
    escaping_message.
  simpl. repeat split; discriminate.
Qed.

Lemma CodeFrameError_message (at1 at2 : SourceLocation) (m1 m2 : string) :
  CodeFrameError at1 m1 = CodeFrameError at2 m2 -> m1 = m2.
Proof. intro H. exact (f_equal error_message H). Qed.

Lemma getMessageDescriptorValue_Throw (path : Node) (e : Error) :
  getMessageDescriptorValue path = Throw e ->
  e = CodeFrameError (node_loc (expression_of path)) evaluation_message \/
  exists message, e = TypeError message.
Proof.
  unfold getMessageDescriptorValue, evaluatePath.
  destruct (evaluate (expression_of path)) as [[s| | | |]|]; cbn [bind];
    intro H; try discriminate; injection H as <-; eauto.
Qed.

Lemma getICUMessageValue_call_Throw (path : Node) (e : Error) :
  getICUMessageValue path false = Throw e ->
  e = CodeFrameError (node_loc (expression_of path)) evaluation_message \/
  (exists message, e = TypeError message) \/
  exists parseError,
    e = CodeFrameError (node_loc path) (parse_message parseError).
Proof.
  unfold getICUMessageValue.
  destruct (getMessageDescriptorValue path) as [s|e'] eqn:V; cbn [bind].
  - destruct (printICUMessage s); [discriminate|].
    cbn [andb]. intro H. injection H as <-. eauto.
  - intro H. injection H as <-.
    apply getMessageDescriptorValue_Throw in V.
    destruct V as [V|V]; [left | right; left]; exact V.
Qed.

(** X17.  The errors of the call callback.  It throws only on a call of
    [t] that is not tagged, and then: a [TypeError] when the call has no
    argument or an argument evaluates to something that is not a string;
    the evaluation error, located at the argument, when the first or the
    third argument cannot be evaluated; the generic parse error, located
    at the first argument, when the printer rejects the text; or one of
    the three errors of the store, located at the call.  It never throws
    the escaping diagnostic, and the second argument is never the cause. *)
Theorem t_call_errors
        (path path' : CallExpressionNode) (state state' : State) (e : Error)
        (Hthrow : CallExpression path state = (Throw e, path', state')) :
  wasExtracted_call path = false /\
  node_name (call_callee path) = Some "t" /\
  ((call_arguments path = [] /\ exists message, e = TypeError message) \/
   (exists arg,
      (nth_error (call_arguments path) 0 = Some arg \/
       nth_error (call_arguments path) 2 = Some arg) /\
      (e = CodeFrameError (node_loc (expression_of arg)) evaluation_message \/
       exists message, e = TypeError message)) \/
   (exists textPath parseError,
      nth_error (call_arguments path) 0 = Some textPath /\
      e = CodeFrameError (node_loc textPath) (parse_message parseError)) \/
   (exists message,
      e = CodeFrameError (call_loc path) message /\
      (message = required_message \/
       (exists id, message = duplicate_message id) \/
       message = description_message))) /\
  (forall at_, e <> CodeFrameError at_ escaping_message).
Proof using evaluate printICUMessage p_relative process_cwd.
  unfold CallExpression in Hthrow.
  destruct (wasExtracted_call path); [discriminate|].
  split; [reflexivity|].
  destruct (node_name (call_callee path)) as [n|]; [|discriminate].
  destruct (String.eqb n "t") eqn:En; [|discriminate].
  apply String.eqb_eq in En. subst n. split; [reflexivity|].
  destruct (call_arguments path) as [|textPath others] eqn:Ha.
  { cbn [nth_error] in Hthrow. injection Hthrow as <- _ _.
    split; [left; eauto 10 | discriminate]. }
  change (nth_error (textPath :: others) 0) with (Some textPath) in *.
  change (nth_error (textPath :: others) 2) with (nth_error others 1) in *.
  cbv beta iota in Hthrow.
  destruct (getICUMessageValue textPath false) as [text|e1] eqn:Ht.
  2:{ injection Hthrow as <- _ _.
      apply getICUMessageValue_call_Throw in Ht.
      destruct Ht as [-> | [(m & ->) | (pe & ->)]].
      - split; [right; left; eauto 10|].
        intros at_ H. apply CodeFrameError_message in H.
        exact (evaluation_message_differs H).
      - split; [right; left; eauto 10 | discriminate].
      - split; [right; right; left; eauto 10|].
        intros at_ H. apply CodeFrameError_message in H.
        symmetry in H. exact (messages_differ _ H). }
  cbv zeta in Hthrow.
  destruct (nth_error others 1) as [cPath|] eqn:Hc.
  - destruct (getMessageDescriptorValue cPath) as [c|e2] eqn:Hv;
      cbn [bind] in Hthrow.
    + destruct (storeMessage _ _ _) as [[u|e3] st] eqn:Hs; [discriminate|].
      injection Hthrow as <- _ _.
      apply storeMessage_Throw in Hs. destruct Hs as [_ Hs].
      destruct (store_messages_differ text) as (D1 & D2 & D3).
      destruct Hs as [-> | [(id & Hid & ->) | ->]].
      * split; [right; right; right; eauto 10|].
        intros at_ H. apply CodeFrameError_message in H. auto.
      * split; [right; right; right; eauto 10|].
        intros at_ H. apply CodeFrameError_message in H.
        exact (proj1 (proj2 (store_messages_differ id)) H).
      * split; [right; right; right; eauto 10|].
        intros at_ H. apply CodeFrameError_message in H. auto.
    + injection Hthrow as <- _ _.
      apply getMessageDescriptorValue_Throw in Hv.
      destruct Hv as [-> | (m & ->)].
      * split; [right; left; eauto 10|].
        intros at_ H. apply CodeFrameError_message in H.
        exact (evaluation_message_differs H).
      * split; [right; left; eauto 10 | discriminate].
  - destruct (storeMessage _ _ _) as [[u|e3] st] eqn:Hs; [discriminate|].
    injection Hthrow as <- _ _.
    apply storeMessage_Throw in Hs. destruct Hs as [_ Hs].
    destruct (store_messages_differ text) as (D1 & D2 & D3).
    destruct Hs as [-> | [(id & Hid & ->) | ->]].
    + split; [right; right; right; eauto 10|].
      intros at_ H. apply CodeFrameError_message in H. auto.
    + split; [right; right; right; eauto 10|].
      intros at_ H. apply CodeFrameError_message in H.
      exact (proj1 (proj2 (store_messages_differ id)) H).
    + split; [right; right; right; eauto 10|].
      intros at_ H. apply CodeFrameError_message in H. auto.
Qed.

Lemma storeMessage_enforced (d : Descriptor) (at_ : SourceLocation)
      (state : State) :
  enforceDescriptions (opts state) = true -> d_description d = None ->
  exists e, storeMessage d at_ state = (Throw e, state).
Proof.
  intros He Hd. unfold storeMessage. rewrite He, Hd.
  destruct (d_id d); [|eauto].
  destruct (d_defaultMessage d); [|eauto].
  destruct (negb _); [eauto|]. cbv zeta.
  destruct (match OMap.get _ _ with Some _ => _ | None => _ end);
    cbn [andb negb truthy_opt]; eauto.
Qed.

(** X18.  With [enforceDescriptions] on, nothing is ever extracted: a [T]
    element and a call of [t] carry no description, so either callback
    leaves the map and the node as they were, and a callback that gets as
    far as the store throws. *)
Theorem enforced_descriptions_block_extraction
        (el el' : JSXOpeningElementNode) (call call' : CallExpressionNode)
        (state state1 state2 : State) (r1 r2 : Completion unit)
        (Henforced : enforceDescriptions (opts state) = true)
        (Hel : JSXOpeningElement el state = (r1, el', state1))
        (Hcall : CallExpression call state = (r2, call', state2)) :
  (el' = el /\ reactIntl_messages state1 = reactIntl_messages state) /\
  (call' = call /\ state2 = state).
Proof using evaluate path_referencesImport printICUMessage p_relative
            process_cwd.
  split.
  - unfold JSXOpeningElement in Hel.
    destruct (wasExtracted_element el);
      [injection Hel as _ <- <-; auto|].
    destruct (path_referencesImport _ _ _);
      [injection Hel as _ <- <-; auto|].
    rewrite referencesImport_COMPONENT_NAMES in Hel. cbn [orb] in Hel.
    destruct (match node_name (el_name el) with
              | Some _ => _ | None => _ end);
      [|injection Hel as _ <- <-; auto].
    destruct (createMessageDescriptor _ true) as [hash|] eqn:Hc;
      [|injection Hel as _ <- <-; auto].
    destruct (OMap.get "defaultMessage" hash);
      [|injection Hel as _ <- <-; auto].
    destruct (evaluateMessageDescriptor hash true) as [o|] eqn:Ho;
      [|injection Hel as _ <- <-; auto].
    apply createMessageDescriptor_T in Hc. destruct Hc as (_ & Hd & _).
    assert (Ed := evaluateMessageDescriptor_get hash true o "description" Ho).
    rewrite Hd in Ed.
    destruct (storeMessage_enforced (destructure o) (el_loc el) state
                Henforced Ed) as (e & Hs).
    rewrite Hs in Hel. injection Hel as _ <- <-. auto.
  - unfold CallExpression in Hcall.
    destruct (wasExtracted_call call);
      [injection Hcall as _ <- <-; auto|].
    destruct (match node_name (call_callee call) with
              | Some _ => _ | None => _ end);
      [|injection Hcall as _ <- <-; auto].
    destruct (nth_error (call_arguments call) 0);
      [|injection Hcall as _ <- <-; auto].
    destruct (getICUMessageValue _ false) as [text|];
      [|injection Hcall as _ <- <-; auto].
    cbv zeta in Hcall.
    destruct (match nth_error (call_arguments call) 2 with
              | Some _ => _ | None => _ end) as [c|];
      [|injection Hcall as _ <- <-; auto].
    destruct (storeMessage_enforced
                (mkDescriptor (Some text) None (Some text) c)
                (call_loc call) state Henforced eq_refl) as (e & Hs).
    rewrite Hs in Hcall. injection Hcall as _ <- <-. auto.
Qed.

(** ** The inserts the plugin makes *)






(** ** What is stored for a [T] element and for a call of [t] *)

(** C4, as the code has it.  When the element callback has extracted a
    [T] element (it returned normally and tagged the element): the value
    of the last attribute named [s] evaluates to a string [v] that the
    printer accepts; the comment is the trimmed value of the last
    attribute named [c], if there is one; the state is the state before
    with one message set under the storage key, which is the trimmed [v],
    followed by [##] and the comment when the comment is not empty.  The
    stored id is that key, the stored default message is what the printer
    prints for the trimmed [v], and there is no description; so the id and
    the default message are equal exactly when the printer prints the
    key. *)
Theorem T_element_stored_id_and_message
        (path path' : JSXOpeningElementNode) (state state' : State)
        (HT : node_name (el_name path) = Some COMPONENT_NAME)
        (Hnew : wasExtracted_element path = false)
        (Hrun : JSXOpeningElement path state = (Normal tt, path', state'))
        (Htagged : wasExtracted_element path' = true) :
  exists valuePath v text c,
    last_keyed MESSAGE_PROPERTY (attribute_pairs (el_attributes path)) =
      Some valuePath /\
    evaluate (expression_of valuePath) = Some (VString v) /\
    printICUMessage (JSString.trim v) = Printed text /\
    match last_keyed COMMENT_PROPERTY
            (attribute_pairs (el_attributes path)) with
    | Some cValue =>
        exists w, evaluate (expression_of cValue) = Some (VString w) /\
                  c = Some (JSString.trim w)
    | None => c = None
    end /\
    let d := mkDescriptor (Some (JSString.trim v)) None (Some text) c in
    let key := storage_key (JSString.trim v) c in
    let m := stored_message d (el_loc path) state (JSString.trim v) text in
    state' = set_messages state (OMap.set key m (reactIntl_messages state)) /\
    OMap.get key (reactIntl_messages state') = Some m /\
    m_id m = key /\
    m_description m = None /\
    m_defaultMessage m = text /\
    (m_id m = m_defaultMessage m <-> text = key).
Proof using evaluate path_referencesImport printICUMessage p_relative
            process_cwd.
  unfold JSXOpeningElement in Hrun. rewrite Hnew, HT in Hrun.
  unfold wasExtracted_element in *.
  destruct (path_referencesImport _ _ _).
  { injection Hrun as <- _. rewrite Hnew in Htagged. discriminate. }
  rewrite String.eqb_refl, orb_true_r in Hrun.
  set (props := attribute_pairs (el_attributes path)) in *.
  destruct (createMessageDescriptor props true) as [hash|] eqn:Hcreate;
    [|discriminate].
  destruct (reduce_T_last_wins _ _ _ Hcreate) as (Gi & Gd & Gc & Go).
  unfold OMap.empty in Gi, Gd, Gc, Go. cbn [OMap.get] in Gi, Gd, Gc, Go.
  destruct (OMap.get "defaultMessage" hash) as [valuePath|] eqn:Gdm.
  2:{ injection Hrun as <- _. rewrite Hnew in Htagged. discriminate. }
  assert (Hs : last_keyed MESSAGE_PROPERTY props = Some valuePath)
    by (destruct (last_keyed MESSAGE_PROPERTY props);
        [now symmetry | discriminate]).
  rewrite Hs in Gi.
  assert (Gc' : OMap.get "c" hash = last_keyed COMMENT_PROPERTY props)
    by (rewrite Gc; now destruct (last_keyed COMMENT_PROPERTY props)).
  clear Gc.
  destruct (evaluateMessageDescriptor hash true) as [o|] eqn:Ho;
    [|discriminate].
  destruct (storeMessage (destructure o) (el_loc path) state)
    as [[u|e] st] eqn:Hstore; [|discriminate].
  destruct (removeDescription (el_attributes path)); [|discriminate].
  injection Hrun as _ <-.
  assert (Ei := evaluateMessageDescriptor_get hash true o "id" Ho).
  assert (Ed := evaluateMessageDescriptor_get hash true o "defaultMessage" Ho).
  assert (Ee := evaluateMessageDescriptor_get hash true o "description" Ho).
  assert (Ec := evaluateMessageDescriptor_get hash true o "c" Ho).
  rewrite Gi in Ei. rewrite Gdm in Ed. rewrite Gc' in Ec.
  rewrite Go in Ee by discriminate.
  cbn [String.eqb Ascii.eqb Bool.eqb] in Ei, Ed, Ec.
  destruct Ei as (si & Oi & Ri). destruct Ed as (text & Od & Rd).
  apply getICUMessageValue_Normal in Rd. destruct Rd as (v & Hv & Hprint).
  apply getMessageDescriptorValue_Normal in Ri.
  destruct Ri as (v' & Hv' & ->). rewrite Hv in Hv'. injection Hv' as <-.
  exists valuePath, v, text, (OMap.get "c" o).
  split; [assumption|]. split; [assumption|]. split; [assumption|]. split.
  { destruct (last_keyed COMMENT_PROPERTY props) as [cValue|];
      [|assumption].
    destruct Ec as (sc & -> & Rc).
    apply getMessageDescriptorValue_Normal in Rc.
    destruct Rc as (w & Hw & ->). eauto. }
  assert (Hd : destructure o =
               mkDescriptor (Some (JSString.trim v)) None (Some text)
                            (OMap.get "c" o)).
  { unfold destructure. now rewrite Oi, Od, Ee. }
  rewrite Hd in Hstore. apply storeMessage_Normal in Hstore.
  destruct Hstore as (id' & dm' & Hid' & Hdm' & _ & _ & ->).
  cbn [d_id d_defaultMessage] in Hid', Hdm'.
  injection Hid' as <-. injection Hdm' as <-.
  cbv zeta. split; [reflexivity|]. split.
  { cbn [reactIntl_messages set_messages]. apply OMap_get_set_eq. }
  unfold stored_message. cbn [m_id m_description m_defaultMessage d_c
                               d_description].
  repeat split; intro H; now symmetry.
Qed.

(** C5, as the code has it.  A call of the bare identifier [t] that is not
    tagged, whose first argument evaluates to a string that the printer
    prints as a text that is not empty, whose third argument, when there
    is one, evaluates to a string, in a state in which descriptions are
    not enforced and the descriptor does not conflict with the entry under
    the text: the call returns normally and is tagged, and one message is
    set in the map, under the storage key, which is the text, followed by
    [##] and the trimmed third argument when that is not empty; the stored
    default message is the text, the stored id is the key (so it is the
    text when there is no such comment), and there is no description.  No
    argument other than the first and the third has any effect. *)
Theorem t_call_is_extracted
        (path : CallExpressionNode) (state : State) (l : SourceLocation)
        (textPath : Node) (others : list Node) (v text : string)
        (c : option string)
        (Hnew : wasExtracted_call path = false)
        (Hcallee : call_callee path = Identifier l "t")
        (Hargs : call_arguments path = textPath :: others)
        (Hval : evaluate (expression_of textPath) = Some (VString v))
        (Htext : printICUMessage (JSString.trim v) = Printed text)
        (Htext_ne : text <> "")
        (Hcomment :
           match nth_error others 1 with
           | Some cPath =>
               exists w, evaluate (expression_of cPath) = Some (VString w) /\
                         c = Some (JSString.trim w)
           | None => c = None
           end)
        (Hno_conflict :
           ~ conflicting (mkDescriptor (Some text) None (Some text) c) state)
        (Hfree : enforceDescriptions (opts state) = false) :
  let d := mkDescriptor (Some text) None (Some text) c in
  let key := storage_key text c in
  let m := stored_message d (call_loc path) state text text in
  let state' :=
    set_messages state (OMap.set key m (reactIntl_messages state)) in
  CallExpression path state = (Normal tt, tagAsExtracted_call path, state') /\
  wasExtracted_call (tagAsExtracted_call path) = true /\
  OMap.get key (reactIntl_messages state') = Some m /\
  m_id m = key /\
  m_description m = None /\
  m_defaultMessage m = text /\
  (truthy_opt c = false -> m_id m = text) /\
  (forall others',
     nth_error others' 1 = nth_error others 1 ->
     CallExpression (with_arguments path (textPath :: others')) state =
       (Normal tt,
        tagAsExtracted_call (with_arguments path (textPath :: others')),
        state')).
Proof using evaluate printICUMessage p_relative process_cwd.
  intros d key m state'.
  assert (Ht : getICUMessageValue textPath false = Normal text)
    by (apply getICUMessageValue_Normal; eauto).
  assert (Hc : forall others0, nth_error others0 1 = nth_error others 1 ->
                 match nth_error others0 1 with
                 | Some cPath =>
                     exists w, getMessageDescriptorValue cPath = Normal w /\
                               c = Some w
                 | None => c = None
                 end).
  { intros others0 E. rewrite E.
    destruct (nth_error others 1) as [cPath|]; [|assumption].
    destruct Hcomment as (w & Hw & ->).
    exists (JSString.trim w). split; [|reflexivity].
    apply getMessageDescriptorValue_Normal. eauto. }
  assert (Hstore : forall at_,
            storeMessage d at_ state =
              (Normal tt,
               set_messages state
                 (OMap.set key (stored_message d at_ state text text)
                           (reactIntl_messages state))))
    by (intro at_;
        apply (storeMessage_passes d at_ state text text eq_refl eq_refl
                 Htext_ne Htext_ne Hno_conflict (or_introl Hfree))).
  split.
  { rewrite (CallExpression_t path state l textPath others text c
               Hnew Hcallee Hargs Ht (Hc others eq_refl)).
    fold d. now rewrite Hstore. }
  split; [reflexivity|]. split.
  { unfold state'. cbn [reactIntl_messages set_messages].
    apply OMap_get_set_eq. }
  split; [reflexivity|]. split; [reflexivity|]. split; [reflexivity|]. split.
  { intro Hc0. unfold m, stored_message. cbn [m_id d_c d].
    unfold storage_key, truthy_opt in *.
    destruct c as [c0|]; [now rewrite Hc0 | reflexivity]. }
  intros others' E.
  rewrite (CallExpression_t (with_arguments path (textPath :: others'))
             state l textPath others' text c Hnew Hcallee eq_refl Ht
             (Hc others' E)).
  fold d. cbn [call_loc with_arguments]. now rewrite Hstore.
Qed.

End Plugin.

(** ** The statements on a concrete file

    The host is [ExampleHost]; the file is [/proj/src/app.js]. *)

Abbreviation storeMessage_ex :=
  (storeMessage ExampleHost.p_relative ExampleHost.process_cwd).
Abbreviation JSXOpeningElement_ex :=
  (JSXOpeningElement ExampleHost.evaluate ExampleHost.path_referencesImport
     ExampleHost.printICUMessage ExampleHost.p_relative
     ExampleHost.process_cwd).
Abbreviation CallExpression_ex :=
  (CallExpression ExampleHost.evaluate ExampleHost.printICUMessage
     ExampleHost.p_relative ExampleHost.process_cwd).
Abbreviation Program_exit_ex :=
  (Program_exit ExampleHost.p_sep ExampleHost.p_relative ExampleHost.p_join
     ExampleHost.p_dirname ExampleHost.process_cwd ExampleHost.JSON_stringify).

(** C1, on the code.  The conflict check of [storeMessage] looks up the
    bare id, and the entry is written under the mangled key.  After
    [descriptor_A] is stored under [X##foo], storing [descriptor_B] (same
    id, same comment, another default message) raises nothing and replaces
    the entry.  Through the call callback: [t("X##foo")] followed by
    [t("X", values, "foo")] raises nothing, and the first message is gone
    from the map. *)
Theorem same_key_other_message_is_overwritten :
  let state1 :=
    snd (storeMessage_ex ExampleHost.descriptor_A ExampleHost.origin
           (ExampleHost.initial ExampleHost.options)) in
  let state2 :=
    snd (storeMessage_ex ExampleHost.descriptor_B ExampleHost.origin state1) in
  (OMap.get "X##foo" (reactIntl_messages state1) =
     Some (mkMessage "X##foo" None "A" None) /\
   fst (storeMessage_ex ExampleHost.descriptor_B ExampleHost.origin state1) =
     Normal tt /\
   reactIntl_messages state2 =
     [("X##foo", mkMessage "X##foo" None "B" None)]) /\
  (let '(r1, _, s1) :=
     CallExpression_ex ExampleHost.mangled_text_call
       (ExampleHost.initial ExampleHost.options) in
   let '(r2, _, s2) := CallExpression_ex ExampleHost.commented_call s1 in
   r1 = Normal tt /\
   reactIntl_messages s1 = [("X##foo", mkMessage "X##foo" None "X##foo" None)] /\
   r2 = Normal tt /\
   reactIntl_messages s2 = [("X##foo", mkMessage "X##foo" None "X" None)]).
Proof. vm_compute. repeat split. Qed.

(** C2 does not hold of the code: no name is in the recognized set, and an
    element whose tag is [FormattedMessage], imported from react-intl, with
    a literal [defaultMessage], is not extracted: nothing is stored and the
    element is not tagged. *)
Lemma FormattedMessage_is_not_extracted :
  (forall name, ~ In name COMPONENT_NAMES) /\
  ExampleHost.path_referencesImport
    (el_name ExampleHost.formatted_message) "react-intl" "FormattedMessage"
  = true /\
  JSXOpeningElement_ex ExampleHost.formatted_message
    (ExampleHost.initial ExampleHost.options) =
  (Normal tt, ExampleHost.formatted_message,
   ExampleHost.initial ExampleHost.options).
Proof. repeat split. intros name H. destruct H. Qed.

Lemma only_T_elements_are_extracted_witness :
  exists state',
    JSXOpeningElement_ex ExampleHost.formatted_message
      (ExampleHost.initial ExampleHost.options) =
    (Normal tt, ExampleHost.formatted_message, state') /\
    reactIntl_messages state' = [] /\
    (state' = ExampleHost.initial ExampleHost.options \/
     state' = log_warn (ExampleHost.initial ExampleHost.options)
                (plural_warning 1)).
Proof.
  apply (only_T_elements_are_extracted
           ExampleHost.evaluate ExampleHost.path_referencesImport
           ExampleHost.printICUMessage ExampleHost.p_relative
           ExampleHost.process_cwd ExampleHost.formatted_message
           (ExampleHost.initial ExampleHost.options)).
  discriminate.
Defined.

(** C4 does not hold of the code: [<T s="Hello" c="foo" />] is stored with
    the id [Hello##foo] and the default message [Hello], which differ. *)
Lemma T_element_with_comment_id_differs_from_message :
  exists path' state' m,
    JSXOpeningElement_ex ExampleHost.hello_with_comment
      (ExampleHost.initial ExampleHost.options) =
    (Normal tt, path', state') /\
    OMap.values (reactIntl_messages state') = [m] /\
    m_id m = "Hello##foo" /\
    m_defaultMessage m = "Hello" /\
    m_id m <> m_defaultMessage m.
Proof.
  do 3 eexists. split; [vm_compute; reflexivity|].
  split; [reflexivity|]. repeat split. discriminate.
Qed.

Lemma comment_key_is_stored_and_persisted_witness :
  let state' :=
    set_messages (ExampleHost.initial ExampleHost.options)
      [("X##foo", mkMessage "X##foo" None "A" None)] in
  exists m,
    OMap.get "X##foo" (reactIntl_messages state') = Some m /\
    m_id m = "X##foo" /\
    m_description m = None /\
    Some "A" = Some (m_defaultMessage m) /\
    "X##foo" <> "X" /\
    OMap.get "X" (reactIntl_messages state') = None /\
    exists descriptors,
      file_metadata (Program_exit_ex state') = Some descriptors /\
      In m descriptors /\
      forall dir, messagesDir (opts state') = Some dir -> dir <> "" ->
        In (WriteFileSync
              (messagesFilename ExampleHost.p_sep ExampleHost.p_relative
                 ExampleHost.p_join ExampleHost.p_dirname
                 ExampleHost.process_cwd dir state')
              (ExampleHost.JSON_stringify descriptors 2))
           (fs (Program_exit_ex state')).
Proof.
  intro state'.
  apply (comment_key_is_stored_and_persisted
           ExampleHost.p_sep ExampleHost.p_relative ExampleHost.p_join
           ExampleHost.p_dirname ExampleHost.process_cwd
           ExampleHost.JSON_stringify ExampleHost.descriptor_A
           ExampleHost.origin (ExampleHost.initial ExampleHost.options)
           state' "X" "foo"); try reflexivity.
  discriminate.
Defined.

Lemma catalog_is_written_when_nonempty_witness :
  let descriptors := [mkMessage "Welcome" None "Welcome" None] in
  (descriptors = [] ->
   fs (Program_exit_ex ExampleHost.finished) = fs ExampleHost.finished) /\
  (descriptors <> [] ->
   fs (Program_exit_ex ExampleHost.finished) =
     [MkdirpSync "out/src";
      WriteFileSync "out/src/app.json"
        (ExampleHost.JSON_stringify descriptors 2)]) /\
  file_metadata (Program_exit_ex ExampleHost.finished) = Some descriptors.
Proof.
  apply (catalog_is_written_when_nonempty
           ExampleHost.p_sep ExampleHost.p_relative ExampleHost.p_join
           ExampleHost.p_dirname ExampleHost.process_cwd
           ExampleHost.JSON_stringify ExampleHost.finished "out").
  - reflexivity.
  - discriminate.
Defined.

Lemma processed_node_is_skipped_witness :
  let el := tagAsExtracted_element ExampleHost.hello_with_comment in
  let call := tagAsExtracted_call ExampleHost.welcome_call in
  JSXOpeningElement_ex el ExampleHost.finished =
    (Normal tt, el, ExampleHost.finished) /\
  CallExpression_ex call ExampleHost.finished =
    (Normal tt, call, ExampleHost.finished).
Proof.
  intros el call.
  apply (processed_node_is_skipped
           ExampleHost.evaluate ExampleHost.path_referencesImport
           ExampleHost.printICUMessage ExampleHost.p_relative
           ExampleHost.process_cwd el call ExampleHost.finished);
    reflexivity.
Defined.

Lemma escaped_literal_gets_escaping_diagnostic_witness :
  getICUMessageValue ExampleHost.evaluate ExampleHost.printICUMessage
    ExampleHost.escaped_value true =
    Throw (CodeFrameError ExampleHost.origin escaping_message) /\
  escaping_message <> parse_message "SyntaxError: unbalanced braces".
Proof.
  apply (escaped_literal_gets_escaping_diagnostic
           ExampleHost.evaluate ExampleHost.printICUMessage
           ExampleHost.escaped_value "a \\{ b"
           "SyntaxError: unbalanced braces"); try reflexivity.
  exists "a ", "{ b". reflexivity.
Defined.

Lemma storeMessage_failure_is_atomic_witness :
  storeMessage_ex ExampleHost.undescribed ExampleHost.origin
    ExampleHost.enforcing =
    (Throw (CodeFrameError ExampleHost.origin (duplicate_message "X")),
     ExampleHost.enforcing) /\
  (reactIntl_messages ExampleHost.enforcing =
     [("X", mkMessage "X" (Some "a greeting") "A" None)] /\
   ExampleHost.enforcing = ExampleHost.enforcing /\
   exists message,
     CodeFrameError ExampleHost.origin (duplicate_message "X") =
     CodeFrameError ExampleHost.origin message).
Proof.
  split; [reflexivity|].
  apply (storeMessage_failure_is_atomic
           ExampleHost.p_relative ExampleHost.process_cwd
           ExampleHost.undescribed ExampleHost.origin
           ExampleHost.enforcing ExampleHost.enforcing
           (CodeFrameError ExampleHost.origin (duplicate_message "X"))).
  reflexivity.
Defined.

(** ** The further statements on the concrete file *)

Lemma storeMessage_accepts_and_reads_back_witness :
  exists state',
    storeMessage_ex ExampleHost.descriptor_A ExampleHost.origin
      (ExampleHost.initial ExampleHost.options) = (Normal tt, state') /\
    OMap.get "X##foo" (reactIntl_messages state') =
      Some (mkMessage "X##foo" None "A" None) /\
    (forall k, k <> "X##foo" ->
       OMap.get k (reactIntl_messages state') = None) /\
    state' = set_messages (ExampleHost.initial ExampleHost.options)
               (reactIntl_messages state').
Proof.
  apply (storeMessage_accepts_and_reads_back
           ExampleHost.p_relative ExampleHost.process_cwd
           ExampleHost.descriptor_A ExampleHost.origin
           (ExampleHost.initial ExampleHost.options) "X" "A");
    try reflexivity; try discriminate.
  - intros (id & existing & _ & G & _). discriminate.
  - now left.
Defined.

Lemma storeMessage_again_adds_no_row_witness :
  exists state2,
    storeMessage_ex MoreExamples.plain_A MoreExamples.elsewhere
      (set_messages (ExampleHost.initial ExampleHost.options)
         [("X", mkMessage "X" None "A" None)]) = (Normal tt, state2) /\
    OMap.keys (reactIntl_messages state2) = ["X"] /\
    (false = false ->
     state2 = set_messages (ExampleHost.initial ExampleHost.options)
                [("X", mkMessage "X" None "A" None)]).
Proof.
  apply (storeMessage_again_adds_no_row
           ExampleHost.p_relative ExampleHost.process_cwd
           MoreExamples.plain_A ExampleHost.origin MoreExamples.elsewhere
           (ExampleHost.initial ExampleHost.options)).
  reflexivity.
Defined.

Lemma storeMessage_rejects_other_message_for_stored_id_witness :
  storeMessage_ex MoreExamples.plain_B MoreExamples.elsewhere
    (set_messages (ExampleHost.initial ExampleHost.options)
       [("X", mkMessage "X" None "A" None)]) =
  (Throw (CodeFrameError MoreExamples.elsewhere (duplicate_message "X")),
   set_messages (ExampleHost.initial ExampleHost.options)
     [("X", mkMessage "X" None "A" None)]).
Proof.
  apply (storeMessage_rejects_other_message_for_stored_id
           ExampleHost.p_relative ExampleHost.process_cwd
           MoreExamples.plain_A MoreExamples.plain_B
           ExampleHost.origin MoreExamples.elsewhere
           (ExampleHost.initial ExampleHost.options) _ "X" "B");
    try reflexivity; try discriminate.
  right. discriminate.
Defined.

Lemma catalog_lists_each_id_once_witness :
  well_formed (reactIntl_messages MoreExamples.welcomed) /\
  exists descriptors,
    file_metadata (Program_exit_ex MoreExamples.welcomed) = Some descriptors /\
    NoDup (map m_id descriptors) /\
    Forall (fun msg => m_id msg <> "" /\ m_defaultMessage msg <> "")
           descriptors.
Proof.
  apply (catalog_lists_each_id_once
           ExampleHost.evaluate ExampleHost.path_referencesImport
           ExampleHost.printICUMessage ExampleHost.p_sep
           ExampleHost.p_relative ExampleHost.p_join ExampleHost.p_dirname
           ExampleHost.process_cwd ExampleHost.JSON_stringify
           (ExampleHost.initial ExampleHost.options) MoreExamples.welcomed).
  apply (reach_call _ _ _ _ _ _
           (Program_enter (ExampleHost.initial ExampleHost.options))
           ExampleHost.welcome_call
           (tagAsExtracted_call ExampleHost.welcome_call) (Normal tt)).
  - apply reach_enter.
  - reflexivity.
Defined.

Lemma callbacks_only_append_witness :
  (["Welcome##foo"; "Hello##foo"] = ["Welcome##foo"] \/
   exists k,
     OMap.get k (reactIntl_messages MoreExamples.welcomed) = None /\
     ["Welcome##foo"; "Hello##foo"] = (["Welcome##foo"] ++ [k])%list) /\
  (OMap.keys (reactIntl_messages MoreExamples.welcomed) = ["Welcome##foo"] \/
   exists k,
     OMap.get k (reactIntl_messages MoreExamples.welcomed) = None /\
     ["Welcome##foo"] = (["Welcome##foo"] ++ [k])%list).
Proof.
  apply (callbacks_only_append
           ExampleHost.evaluate ExampleHost.path_referencesImport
           ExampleHost.printICUMessage ExampleHost.p_relative
           ExampleHost.process_cwd
           ExampleHost.hello_with_comment
           (tagAsExtracted_element ExampleHost.hello_with_comment)
           MoreExamples.welcome_again
           (tagAsExtracted_call MoreExamples.welcome_again)
           MoreExamples.welcomed
           (set_messages MoreExamples.welcomed
              [("Welcome##foo", mkMessage "Welcome##foo" None "Welcome" None);
               ("Hello##foo", mkMessage "Hello##foo" None "Hello" None)])
           MoreExamples.welcomed (Normal tt) (Normal tt));
    reflexivity.
Defined.

Lemma createMessageDescriptor_T_last_wins_witness :
  let hash :=
    [("id", StringLiteral ExampleHost.origin "Hello");
     ("defaultMessage", StringLiteral ExampleHost.origin "Hello");
     ("c", StringLiteral ExampleHost.origin "foo")] in
  OMap.get "id" hash = Some (StringLiteral ExampleHost.origin "Hello") /\
  OMap.get "defaultMessage" hash =
    Some (StringLiteral ExampleHost.origin "Hello") /\
  OMap.get "c" hash = Some (StringLiteral ExampleHost.origin "foo") /\
  (forall k, k <> "id" -> k <> "defaultMessage" -> k <> "c" ->
     OMap.get k hash = None).
Proof.
  apply (createMessageDescriptor_T_last_wins ExampleHost.evaluate
           MoreExamples.repeated_props).
  reflexivity.
Defined.

Lemma createMessageDescriptor_standard_last_wins_witness :
  OMap.get "values"
    [("id", StringLiteral ExampleHost.origin "greeting");
     ("defaultMessage", StringLiteral ExampleHost.origin "Hi")] = None.
Proof.
  apply (createMessageDescriptor_standard_last_wins ExampleHost.evaluate
           MoreExamples.standard_props _ "values").
  reflexivity.
Defined.

Lemma createMessageDescriptor_fails_only_on_keys_witness :
  exists hash,
    createMessageDescriptor ExampleHost.evaluate MoreExamples.repeated_props
      true = Normal hash.
Proof.
  apply (createMessageDescriptor_fails_only_on_keys ExampleHost.evaluate
           MoreExamples.repeated_props true).
  repeat constructor; discriminate.
Defined.

Lemma evaluateMessageDescriptor_resolves_each_property_witness :
  let o := [("id", "Hello"); ("defaultMessage", "Hello"); ("c", "foo")] in
  OMap.keys o = OMap.keys MoreExamples.raw_hello /\
  forall k valuePath,
    OMap.get k MoreExamples.raw_hello = Some valuePath ->
    exists s,
      OMap.get k o = Some s /\
      resolve ExampleHost.evaluate ExampleHost.printICUMessage true k valuePath
      = Normal s.
Proof.
  apply (evaluateMessageDescriptor_resolves_each_property
           ExampleHost.evaluate ExampleHost.printICUMessage
           MoreExamples.raw_hello true).
  reflexivity.
Defined.

Lemma getMessageDescriptorValue_is_trimmed_witness :
  starts_with_whitespace "Hello, {name}!" = false /\
  ends_with_whitespace "Hello, {name}!" = false /\
  JSString.trim "Hello, {name}!" = "Hello, {name}!".
Proof.
  apply (getMessageDescriptorValue_is_trimmed ExampleHost.evaluate
           (JSXExpressionContainer ExampleHost.origin
              (StringLiteral ExampleHost.origin "  Hello, {name}! "))).
  reflexivity.
Defined.

Lemma getICUMessageValue_errors_witness :
  let e := CodeFrameError ExampleHost.origin
             (parse_message "SyntaxError: unbalanced braces") in
  (ExampleHost.evaluate (expression_of ExampleHost.escaped_value) = None /\
   e = CodeFrameError (node_loc (expression_of ExampleHost.escaped_value))
         evaluation_message) \/
  (exists value,
     ExampleHost.evaluate (expression_of ExampleHost.escaped_value) =
       Some value /\
     (forall s, value <> VString s) /\
     exists message, e = TypeError message) \/
  (exists v parseError,
     ExampleHost.evaluate (expression_of ExampleHost.escaped_value) =
       Some (VString v) /\
     ExampleHost.printICUMessage (JSString.trim v) = ParseError parseError /\
     ((false = true /\ isLiteral ExampleHost.escaped_value = true /\
       occurs "\\" v /\
       e = CodeFrameError (node_loc ExampleHost.escaped_value)
             escaping_message) \/
      (~ (false = true /\ isLiteral ExampleHost.escaped_value = true /\
          occurs "\\" v) /\
       e = CodeFrameError (node_loc ExampleHost.escaped_value)
             (parse_message parseError)))).
Proof.
  apply (getICUMessageValue_errors ExampleHost.evaluate
           ExampleHost.printICUMessage ExampleHost.escaped_value false).
  reflexivity.
Defined.

Lemma extraction_removes_first_description_only_witness :
  let attrs' :=
    [JSXAttribute (JSXIdentifier ExampleHost.origin "s")
                  (StringLiteral ExampleHost.origin "Hello");
     JSXSpreadAttribute (OtherNode ExampleHost.origin 2)] in
  el_name MoreExamples.described = el_name MoreExamples.described /\
  el_loc MoreExamples.described = el_loc MoreExamples.described /\
  ((attrs' = el_attributes MoreExamples.described /\
    Forall (fun a => ~ names_description ExampleHost.evaluate a)
           (el_attributes MoreExamples.described)) \/
   (exists pre a post,
      el_attributes MoreExamples.described = (pre ++ a :: post)%list /\
      attrs' = (pre ++ post)%list /\
      names_description ExampleHost.evaluate a /\
      Forall (fun a => ~ names_description ExampleHost.evaluate a) pre)).
Proof.
  intro attrs'.
  apply (extraction_removes_first_description_only
           ExampleHost.evaluate ExampleHost.path_referencesImport
           ExampleHost.printICUMessage ExampleHost.p_relative
           ExampleHost.process_cwd MoreExamples.described
           (mkElement ExampleHost.origin
              (JSXIdentifier ExampleHost.origin "T") attrs' true)
           (ExampleHost.initial ExampleHost.options)
           (set_messages (ExampleHost.initial ExampleHost.options)
              [("Hello", mkMessage "Hello" None "Hello" None)]));
    reflexivity.
Defined.

Lemma element_without_message_is_left_alone_witness :
  exists state',
    JSXOpeningElement_ex MoreExamples.spread_only MoreExamples.welcomed =
      (Normal tt, MoreExamples.spread_only, state') /\
    reactIntl_messages state' = reactIntl_messages MoreExamples.welcomed.
Proof.
  apply (element_without_message_is_left_alone
           ExampleHost.evaluate ExampleHost.path_referencesImport
           ExampleHost.printICUMessage ExampleHost.p_relative
           ExampleHost.process_cwd MoreExamples.spread_only
           MoreExamples.welcomed).
  repeat constructor. exists (VString "className"). split; reflexivity.
Defined.

Lemma comments_keep_messages_apart_witness :
  let state2 :=
    set_messages (ExampleHost.initial ExampleHost.options)
      [("X##foo", mkMessage "X##foo" None "A" None);
       ("X##bar", mkMessage "X##bar" None "A" None)] in
  "X##foo" <> "X##bar" /\
  OMap.get "X##foo" (reactIntl_messages state2) =
    Some (mkMessage "X##foo" None "A" None) /\
  OMap.get "X##bar" (reactIntl_messages state2) =
    Some (mkMessage "X##bar" None "A" None).
Proof.
  intro state2.
  apply (comments_keep_messages_apart
           ExampleHost.p_relative ExampleHost.process_cwd
           ExampleHost.descriptor_A MoreExamples.descriptor_A_bar
           ExampleHost.origin MoreExamples.elsewhere
           (ExampleHost.initial ExampleHost.options)
           (set_messages (ExampleHost.initial ExampleHost.options)
              [("X##foo", mkMessage "X##foo" None "A" None)])
           state2 "X" "foo" "bar" "A" "A");
    try reflexivity; discriminate.
Defined.

Lemma T_element_is_extracted_witness :
  exists attrs',
    removeDescription ExampleHost.evaluate
      (el_attributes MoreExamples.described) = Normal attrs' /\
    JSXOpeningElement_ex MoreExamples.described
      (ExampleHost.initial ExampleHost.options) =
    (Normal tt,
     mkElement ExampleHost.origin (JSXIdentifier ExampleHost.origin "T")
       attrs' true,
     set_messages (ExampleHost.initial ExampleHost.options)
       [("Hello", mkMessage "Hello" None "Hello" None)]).
Proof.
  apply (T_element_is_extracted
           ExampleHost.evaluate ExampleHost.path_referencesImport
           ExampleHost.printICUMessage ExampleHost.p_relative
           ExampleHost.process_cwd MoreExamples.described
           (ExampleHost.initial ExampleHost.options)
           (StringLiteral ExampleHost.origin "Hello") "Hello" "Hello" None);
    try reflexivity; try discriminate.
  - repeat constructor; discriminate.
  - intros (id & existing & _ & G & _). discriminate.
Defined.

Lemma repeated_t_call_adds_no_row_witness :
  exists state2,
    CallExpression_ex MoreExamples.welcome_again MoreExamples.welcomed =
      (Normal tt, tagAsExtracted_call MoreExamples.welcome_again, state2) /\
    OMap.keys (reactIntl_messages state2) = ["Welcome##foo"].
Proof.
  apply (repeated_t_call_adds_no_row
           ExampleHost.evaluate ExampleHost.printICUMessage
           ExampleHost.p_relative ExampleHost.process_cwd
           ExampleHost.welcome_call
           (tagAsExtracted_call ExampleHost.welcome_call)
           MoreExamples.welcome_again
           (ExampleHost.initial ExampleHost.options) MoreExamples.welcomed);
    reflexivity.
Defined.

Lemma t_call_errors_witness :
  let e := CodeFrameError ExampleHost.origin
             (parse_message "SyntaxError: unbalanced braces") in
  CallExpression_ex MoreExamples.unbalanced_call MoreExamples.welcomed =
    (Throw e, MoreExamples.unbalanced_call, MoreExamples.welcomed) /\
  (wasExtracted_call MoreExamples.unbalanced_call = false /\
   node_name (call_callee MoreExamples.unbalanced_call) = Some "t" /\
   ((call_arguments MoreExamples.unbalanced_call = [] /\
     exists message, e = TypeError message) \/
    (exists arg,
       (nth_error (call_arguments MoreExamples.unbalanced_call) 0 = Some arg \/
        nth_error (call_arguments MoreExamples.unbalanced_call) 2 = Some arg)
       /\
       (e = CodeFrameError (node_loc (expression_of arg)) evaluation_message
        \/ exists message, e = TypeError message)) \/
    (exists textPath parseError,
       nth_error (call_arguments MoreExamples.unbalanced_call) 0 =
         Some textPath /\
       e = CodeFrameError (node_loc textPath) (parse_message parseError)) \/
    (exists message,
       e = CodeFrameError (call_loc MoreExamples.unbalanced_call) message /\
       (message = required_message \/
        (exists id, message = duplicate_message id) \/
        message = description_message))) /\
   (forall at_, e <> CodeFrameError at_ escaping_message)).
Proof.
  intro e. split; [reflexivity|].
  apply (t_call_errors
           ExampleHost.evaluate ExampleHost.printICUMessage
           ExampleHost.p_relative ExampleHost.process_cwd
           MoreExamples.unbalanced_call MoreExamples.unbalanced_call
           MoreExamples.welcomed MoreExamples.welcomed e).
  reflexivity.
Defined.

Lemma enforced_descriptions_block_extraction_witness :
  JSXOpeningElement_ex ExampleHost.hello_with_comment ExampleHost.enforcing =
    (Throw (CodeFrameError ExampleHost.origin description_message),
     ExampleHost.hello_with_comment, ExampleHost.enforcing) /\
  CallExpression_ex ExampleHost.welcome_call ExampleHost.enforcing =
    (Throw (CodeFrameError ExampleHost.origin description_message),
     ExampleHost.welcome_call, ExampleHost.enforcing) /\
  (ExampleHost.hello_with_comment = ExampleHost.hello_with_comment /\
   reactIntl_messages ExampleHost.enforcing =
     [("X", mkMessage "X" (Some "a greeting") "A" None)]) /\
  (ExampleHost.welcome_call = ExampleHost.welcome_call /\
   ExampleHost.enforcing = ExampleHost.enforcing).
Proof.
  split; [reflexivity|]. split; [reflexivity|].
  apply (enforced_descriptions_block_extraction
           ExampleHost.evaluate ExampleHost.path_referencesImport
           ExampleHost.printICUMessage ExampleHost.p_relative
           ExampleHost.process_cwd
           ExampleHost.hello_with_comment ExampleHost.hello_with_comment
           ExampleHost.welcome_call ExampleHost.welcome_call
           ExampleHost.enforcing ExampleHost.enforcing ExampleHost.enforcing
           (Throw (CodeFrameError ExampleHost.origin description_message))
           (Throw (CodeFrameError ExampleHost.origin description_message)));
    reflexivity.
Defined.

(** ** Inserts, [T] elements and calls of [t] on the concrete file *)


Lemma T_element_stored_id_and_message_witness :
  let state :=
    set_messages (ExampleHost.initial ExampleHost.options)
      [("Hello", mkMessage "Hello" None "Hello" None)] in
  let state' :=
    set_messages (ExampleHost.initial ExampleHost.options)
      [("Hello", mkMessage "Hello" None "Hello" None);
       ("Hello##foo", mkMessage "Hello##foo" None "Hello" None)] in
  exists valuePath v text c,
    last_keyed ExampleHost.evaluate MESSAGE_PROPERTY
      (attribute_pairs (el_attributes ExampleHost.hello_with_comment)) =
      Some valuePath /\
    ExampleHost.evaluate (expression_of valuePath) = Some (VString v) /\
    ExampleHost.printICUMessage (JSString.trim v) = Printed text /\
    match last_keyed ExampleHost.evaluate COMMENT_PROPERTY
            (attribute_pairs (el_attributes ExampleHost.hello_with_comment))
    with
    | Some cValue =>
        exists w,
          ExampleHost.evaluate (expression_of cValue) = Some (VString w) /\
          c = Some (JSString.trim w)
    | None => c = None
    end /\
    let d := mkDescriptor (Some (JSString.trim v)) None (Some text) c in
    let key := storage_key (JSString.trim v) c in
    let m :=
      stored_message ExampleHost.p_relative ExampleHost.process_cwd d
        (el_loc ExampleHost.hello_with_comment) state (JSString.trim v) text in
    state' = set_messages state (OMap.set key m (reactIntl_messages state)) /\
    OMap.get key (reactIntl_messages state') = Some m /\
    m_id m = key /\
    m_description m = None /\
    m_defaultMessage m = text /\
    (m_id m = m_defaultMessage m <-> text = key).
Proof.
  intros state state'.
  apply (T_element_stored_id_and_message
           ExampleHost.evaluate ExampleHost.path_referencesImport
           ExampleHost.printICUMessage ExampleHost.p_relative
           ExampleHost.process_cwd ExampleHost.hello_with_comment
           (tagAsExtracted_element ExampleHost.hello_with_comment)
           state state');
    reflexivity.
Defined.

(** C5 does not hold of the code: with descriptions enforced, the call
    [t("Welcome", values, "foo")] in a file that has no message yet throws
    the missing-description error, stores nothing and is not tagged; and
    without enforcement it is stored with the id [Welcome##foo] and the
    default message [Welcome], which differ. *)
Lemma t_call_can_throw_and_can_store_another_id :
  CallExpression_ex ExampleHost.welcome_call
    (ExampleHost.initial (mkOpts None true false None)) =
    (Throw (CodeFrameError ExampleHost.origin description_message),
     ExampleHost.welcome_call,
     ExampleHost.initial (mkOpts None true false None)) /\
  exists path' state' m,
    CallExpression_ex ExampleHost.welcome_call
      (ExampleHost.initial ExampleHost.options) = (Normal tt, path', state') /\
    OMap.values (reactIntl_messages state') = [m] /\
    m_id m = "Welcome##foo" /\
    m_defaultMessage m = "Welcome" /\
    m_id m <> m_defaultMessage m.
Proof.
  split; [reflexivity|].
  do 3 eexists. split; [vm_compute; reflexivity|].
  split; [reflexivity|]. repeat split. discriminate.
Qed.

Lemma t_call_is_extracted_witness :
  let state := ExampleHost.initial ExampleHost.options in
  let m := mkMessage "Welcome##foo" None "Welcome" None in
  let state' := set_messages state [("Welcome##foo", m)] in
  CallExpression_ex ExampleHost.welcome_call state =
    (Normal tt, tagAsExtracted_call ExampleHost.welcome_call, state') /\
  wasExtracted_call (tagAsExtracted_call ExampleHost.welcome_call) = true /\
  OMap.get "Welcome##foo" (reactIntl_messages state') = Some m /\
  m_id m = "Welcome##foo" /\
  m_description m = None /\
  m_defaultMessage m = "Welcome" /\
  (truthy_opt (Some "foo") = false -> m_id m = "Welcome") /\
  (forall others',
     nth_error others' 1 = Some (StringLiteral ExampleHost.origin "foo") ->
     CallExpression_ex
       (with_arguments ExampleHost.welcome_call
          (StringLiteral ExampleHost.origin "Welcome" :: others')) state =
       (Normal tt,
        tagAsExtracted_call
          (with_arguments ExampleHost.welcome_call
             (StringLiteral ExampleHost.origin "Welcome" :: others')),
        state')).
Proof.
  intros state m state'.
  apply (t_call_is_extracted
           ExampleHost.evaluate ExampleHost.printICUMessage
           ExampleHost.p_relative ExampleHost.process_cwd
           ExampleHost.welcome_call state ExampleHost.origin
           (StringLiteral ExampleHost.origin "Welcome")
           [OtherNode ExampleHost.origin 0;
            StringLiteral ExampleHost.origin "foo"]
           "Welcome" "Welcome" (Some "foo"));
    try reflexivity; try discriminate.
  - exists "foo". split; reflexivity.
  - intros (id & existing & _ & G & _). discriminate.
Defined.
